(** * telegram-video-gen: the orchestration core, embedded and verified

    A shallow embedding of the Python sources

    - [config/settings.py]        (defaults and the global quota),
    - [database/settings.py]      (per-user settings table),
    - [database/messages.py]      (the ledger of generation attempts),
    - [veo/client.py]             (submit / poll / download),
    - [storage/manager.py]        (temporary files),
    - [bot/handlers/messages.py]  (cost computation and the request pipeline),
    - [bot/handlers/commands.py]  (the slash commands).

    Conventions of the embedding.

    - Python [str] is [string]: a sequence of characters with code points
      below 256, each character an [ascii] holding its code point; [bytes]
      is [list Byte.byte]; Python [int] and SQLite INTEGER are [Z].
    - Python [float] (prices and costs) is IEEE binary64, [F64.float], with
      the operations of the Standard Library's [SpecFloat]; a SQLite REAL
      is the exact rational value [Q] of the double it stores; time is an
      integer number of milliseconds.
    - A [dict] used as a map is a [gmap]; a table keyed by its primary key is
      a [gmap], the append-only ledger is a list of rows in insertion order.
    - Synchronous code is written in explicit state passing and returns
      [exn + A]; the coroutine [handle_message] lives in a resumption monad
      whose [Yield] nodes are the [await] points of the source. *)

From Stdlib Require Import ZArith QArith Qabs String Ascii List Lia.
From Stdlib Require Import Floats.SpecFloat.
From stdpp Require Import base option list gmap strings.

Open Scope Z_scope.
Open Scope string_scope.

(** ** Python exceptions *)

(** The exception classes that the modelled code raises or lets through.
    [External] stands for any exception of an external collaborator
    (HTTP transport, object storage, file system, chat platform). *)
Inductive exn : Type :=
| ValueError (msg : string)
| OverflowError (msg : string)
| BinasciiError (msg : string)
| External (msg : string).

(** [str(e)] *)
Definition exn_str (e : exn) : string :=
  match e with
  | ValueError m => m
  | OverflowError m => m
  | BinasciiError m => m
  | External m => m
  end.

(** ** config/settings.py *)

Module Config.

Definition DEFAULT_MODEL : string := "veo-3.1-fast-generate-001".
Definition DEFAULT_DURATION : Z := 8.
Definition DEFAULT_RESOLUTION : string := "720p".
Definition GLOBAL_VIDEO_QUOTA_LIMIT : Z := 70.

End Config.

(** ** The string methods the sources use *)

Module Str.

(** [c.lower()] on one character: the upper-case letters below 256 are
    [A]..[Z] and U+00C0..U+00DE but for the multiplication sign U+00D7; each
    has its lower-case letter 32 places on. *)
Definition lower_char (c : ascii) : ascii :=
  let n := nat_of_ascii c in
  if (((65 <=? n)%nat && (n <=? 90)%nat)
      || ((192 <=? n)%nat && (n <=? 222)%nat && negb (n =? 215)%nat))%bool
  then ascii_of_nat (n + 32) else c.

(** [s.lower()] *)
Fixpoint lower (s : string) : string :=
  match s with
  | EmptyString => EmptyString
  | String c s' => String (lower_char c) (lower s')
  end.

(** [s.startswith(p)] *)
Fixpoint startswith (p s : string) : bool :=
  match p, s with
  | EmptyString, _ => true
  | String _ _, EmptyString => false
  | String a p', String b s' => if Ascii.eqb a b then startswith p' s' else false
  end.

(** [p in s] *)
Fixpoint contains (p s : string) : bool :=
  if startswith p s then true
  else match s with
       | EmptyString => false
       | String _ s' => contains p s'
       end.

(** Python's [str.isspace] on one character, which is what [strip] goes
    by: below 256 the white space is U+0009..U+000D, U+001C..U+0020, the
    next-line control U+0085 and the no-break space U+00A0. *)
Definition is_space (c : ascii) : bool :=
  let n := nat_of_ascii c in
  (((9 <=? n)%nat && (n <=? 13)%nat) || ((28 <=? n)%nat && (n <=? 32)%nat)
   || (n =? 133)%nat || (n =? 160)%nat)%bool.

Fixpoint lstrip (s : string) : string :=
  match s with
  | EmptyString => EmptyString
  | String c s' => if is_space c then lstrip s' else s
  end.

Fixpoint rstrip (s : string) : string :=
  match s with
  | EmptyString => EmptyString
  | String c s' =>
      match rstrip s' with
      | EmptyString => if is_space c then EmptyString else String c EmptyString
      | r => String c r
      end
  end.

(** [s.strip()] *)
Definition strip (s : string) : string := rstrip (lstrip s).

(** [s.replace(old, "")] for a non-empty [old]: every occurrence found in a
    left-to-right scan is dropped; [skip] counts the characters of the
    occurrence being dropped that are still ahead. *)
Fixpoint remove_from (old : string) (skip : nat) (s : string) : string :=
  match s with
  | EmptyString => EmptyString
  | String c s' =>
      match skip with
      | S k => remove_from old k s'
      | O => if startswith old s then remove_from old (String.length old - 1) s'
             else String c (remove_from old O s')
      end
  end.

Definition remove_all (old s : string) : string := remove_from old O s.

(** [s.split(sep, 1)] for a one-character [sep]: [None] when [sep] does not
    occur (Python then returns a one-element list). *)
Fixpoint split_once (sep : ascii) (s : string) : option (string * string) :=
  match s with
  | EmptyString => None
  | String c s' =>
      if Ascii.eqb c sep then Some (EmptyString, s')
      else match split_once sep s' with
           | Some (a, b) => Some (String c a, b)
           | None => None
           end
  end.

(** [s[:n]] *)
Fixpoint take (n : nat) (s : string) : string :=
  match n, s with
  | O, _ => EmptyString
  | S _, EmptyString => EmptyString
  | S k, String c s' => String c (take k s')
  end.

(** Truthiness of a string: non-empty. *)
Definition truthy (s : string) : bool :=
  match s with EmptyString => false | _ => true end.

End Str.

(** ** Python floats *)

Module F64.

(** IEEE binary64: 53 bits of precision, exponents below 1024. *)
Definition prec : Z := 53.
Definition emax : Z := 1024.

Definition float : Type := spec_float.

(** The double nearest to an integer (ties to even); an infinity when the
    integer is beyond the doubles. *)
Definition nearest (z : Z) : float := binary_normalize prec emax z 0 false.

(** The float a decimal literal denotes: the double nearest to it. The
    literal is given as a fraction whose numerator and denominator are
    doubles themselves, so that their quotient, rounded once, is that
    double. *)
Definition lit (q : Q) : float :=
  SFdiv prec emax (nearest (Qnum q)) (nearest (Zpos (Qden q))).

(** [float(z)] for an [int], as the arithmetic operators convert it. *)
Definition of_int (z : Z) : exn + float :=
  match nearest z with
  | S754_infinity _ => inl (OverflowError "int too large to convert to float")
  | x => inr x
  end.

(** [x * y] on floats. *)
Definition mul (x y : float) : float := SFmul prec emax x y.

(** [x * z] for a float [x] and an [int] [z]. *)
Definition times (x : float) (z : Z) : exn + float :=
  match of_int z with
  | inl e => inl e
  | inr y => inr (mul x y)
  end.

(** The number a float is; the infinities and NaN, which are no numbers,
    are given zero. *)
Definition value (x : float) : Q :=
  match x with
  | S754_finite s m e =>
      let n := if s then Zneg m else Zpos m in
      match e with
      | Z0 => inject_Z n
      | Zpos k => inject_Z (n * 2 ^ Zpos k)
      | Zneg k => Qmake n (2 ^ k)
      end
  | _ => 0%Q
  end.

End F64.

(** ** bot/handlers/messages.py: cost *)

(** [calculate_cost(model, duration_seconds)] *)
Definition calculate_cost (model : string) (duration_seconds : Z)
  : exn + F64.float :=
  let is_fast := Str.contains "fast" (Str.lower model) in
  let price_per_second := if is_fast then F64.lit 0.15 else F64.lit 0.40 in
  let cost := F64.times price_per_second duration_seconds in
  cost.

(** ** database/settings.py *)

Module SettingsDb.

(** The dictionary that [get_user_settings] and its siblings return. *)
Record UserSettings : Type := mkUserSettings {
  user_id : Z;
  model : string;
  duration : Z;
  resolution : string
}.

(** The non-key columns of one row of table [user_settings]; the table is
    keyed by its primary key [user_id]. *)
Record Stored : Type := mkStored {
  s_model : string;
  s_duration : Z;
  s_resolution : string
}.

Abbreviation Table := (gmap Z Stored).

(** [get_user_settings(user_id)] *)
Definition get_user_settings (db : Table) (uid : Z) : UserSettings :=
  match db !! uid with
  | Some row =>
      {| user_id := uid; model := s_model row;
         duration := s_duration row; resolution := s_resolution row |}
  | None =>
      {| user_id := uid; model := Config.DEFAULT_MODEL;
         duration := Config.DEFAULT_DURATION;
         resolution := Config.DEFAULT_RESOLUTION |}
  end.

(** [set_user_settings(user_id, model=None, duration=None, resolution=None)]:
    an argument left at [None] is not supplied. *)
Definition set_user_settings (db : Table) (uid : Z)
  (model' : option string) (duration' : option Z) (resolution' : option string)
  : Table * UserSettings :=
  let current := get_user_settings db uid in
  let current :=
    match model' with
    | Some m => {| user_id := user_id current; model := m;
                   duration := duration current; resolution := resolution current |}
    | None => current
    end in
  let current :=
    match duration' with
    | Some d => {| user_id := user_id current; model := model current;
                   duration := d; resolution := resolution current |}
    | None => current
    end in
  let current :=
    match resolution' with
    | Some r => {| user_id := user_id current; model := model current;
                   duration := duration current; resolution := r |}
    | None => current
    end in
  (<[uid := {| s_model := model current; s_duration := duration current;
               s_resolution := resolution current |}]> db,
   current).

(** [reset_user_settings(user_id)] *)
Definition reset_user_settings (db : Table) (uid : Z) : Table * UserSettings :=
  let db' := delete uid db in
  (db', get_user_settings db' uid).

End SettingsDb.

(** ** database/messages.py *)

Module MessagesDb.

(** One row of table [messages]. *)
Record Row : Type := mkRow {
  id : Z;
  user_id : Z;
  username : option string;
  timestamp : Z;
  prompt_tokens : Z;
  output_prompt_tokens : Z;
  model : string;
  cost : Q;
  duration_seconds : Z;
  resolution : string;
  status : string
}.

(** The table: its rows in insertion order and the AUTOINCREMENT counter
    (the largest id handed out so far). *)
Record Table : Type := mkTable {
  rows : list Row;
  last_id : Z
}.

Definition empty : Table := {| rows := []; last_id := 0 |}.

(** [create_message(...)]; [now] is the clock reading that becomes the
    timestamp. Returns the table and [cursor.lastrowid]. *)
Definition create_message (t : Table) (now : Z)
  (user_id : Z) (username : option string) (model : string)
  (duration_seconds : Z) (resolution : string)
  (prompt_tokens output_prompt_tokens : Z) (cost : Q) (status : string)
  : Table * Z :=
  let new_id := last_id t + 1 in
  ({| rows := rows t ++
        [ {| id := new_id; user_id := user_id; username := username;
             timestamp := now; prompt_tokens := prompt_tokens;
             output_prompt_tokens := output_prompt_tokens; model := model;
             cost := cost; duration_seconds := duration_seconds;
             resolution := resolution; status := status |} ];
      last_id := new_id |},
   new_id).

(** The [SET] clause of [update_message] applied to one row: only the
    supplied columns change. *)
Definition apply_updates
  (prompt_tokens' output_prompt_tokens' : option Z)
  (cost' : option Q) (status' : option string) (r : Row) : Row :=
  {| id := id r; user_id := user_id r; username := username r;
     timestamp := timestamp r;
     prompt_tokens := default (prompt_tokens r) prompt_tokens';
     output_prompt_tokens := default (output_prompt_tokens r) output_prompt_tokens';
     model := model r;
     cost := default (cost r) cost';
     duration_seconds := duration_seconds r;
     resolution := resolution r;
     status := default (status r) status' |}.

(** [update_message(message_id, prompt_tokens=None, output_prompt_tokens=None,
    cost=None, status=None)] *)
Definition update_message (t : Table) (message_id : Z)
  (prompt_tokens' output_prompt_tokens' : option Z)
  (cost' : option Q) (status' : option string) : Table :=
  match prompt_tokens', output_prompt_tokens', cost', status' with
  | None, None, None, None => t
  | _, _, _, _ =>
      {| rows := map (fun r =>
                        if Z.eqb (id r) message_id
                        then apply_updates prompt_tokens' output_prompt_tokens'
                                           cost' status' r
                        else r) (rows t);
         last_id := last_id t |}
  end.

(** [get_successful_videos_count()] *)
Definition get_successful_videos_count (t : Table) : Z :=
  Z.of_nat (length (filter (fun r => status r = "success") (rows t))).

(** [get_total_cost()]: [SUM] over no row is [NULL], which [or 0.0] turns
    into zero. *)
Definition get_total_cost (t : Table) : Q :=
  fold_right (fun r acc => (cost r + acc)%Q) 0%Q
             (filter (fun r => status r = "success") (rows t)).

(** The dictionary [get_stats] returns. *)
Record Stats : Type := mkStats {
  total_messages : Z;
  unique_users : Z;
  total_cost : Q;
  total_prompt_tokens : Z;
  total_output_prompt_tokens : Z;
  successful_messages : Z;
  failed_messages : Z
}.

(** [get_stats()]: the aggregates over the whole table; a [SUM] over no row
    is [NULL], which [or 0] turns into zero. *)
Definition get_stats (t : Table) : Stats :=
  {| total_messages := Z.of_nat (length (rows t));
     unique_users := Z.of_nat (length (remove_dups (map user_id (rows t))));
     total_cost := fold_right (fun r acc => (cost r + acc)%Q) 0%Q (rows t);
     total_prompt_tokens :=
       fold_right (fun r acc => prompt_tokens r + acc) 0 (rows t);
     total_output_prompt_tokens :=
       fold_right (fun r acc => output_prompt_tokens r + acc) 0 (rows t);
     successful_messages :=
       Z.of_nat (length (filter (fun r => status r = "success") (rows t)));
     failed_messages :=
       Z.of_nat (length (filter (fun r => status r = "failed") (rows t))) |}.

End MessagesDb.

(** ** base64, as used by [veo/client.py] *)

Module Base64.

(** A C [unsigned char] store: the low eight bits. *)
Definition byte_of_N (n : N) : Byte.byte :=
  match Byte.of_N (n mod 256) with
  | Some b => b
  | None => Byte.x00
  end.

(** [table_b2a_base64] *)
Definition table_b2a : string :=
  "ABCDEFGHIJKLMNOPQRSTUVWXYZabcdefghijklmnopqrstuvwxyz0123456789+/".

Definition b2a (sextet : N) : ascii :=
  match String.get (N.to_nat sextet) table_b2a with
  | Some c => c
  | None => "="%char
  end.

(** [table_a2b_base64]: the value of an alphabet character, [None] for
    every other character. *)
Definition a2b (c : ascii) : option N :=
  let n := N_of_ascii c in
  if ((65 <=? n) && (n <=? 90))%N then Some (n - 65)%N
  else if ((97 <=? n) && (n <=? 122))%N then Some (n - 71)%N
  else if ((48 <=? n) && (n <=? 57))%N then Some (n + 4)%N
  else if (n =? 43)%N then Some 62%N
  else if (n =? 47)%N then Some 63%N
  else None.

(** [base64.b64encode(b)] (RFC 4648, with padding), three bytes at a time. *)
Fixpoint b64encode (b : list Byte.byte) : string :=
  match b with
  | [] => EmptyString
  | [x] =>
      let x := Byte.to_N x in
      String (b2a (N.shiftr x 2))
     (String (b2a (N.shiftl (N.land x 3) 4)) "==")
  | [x; y] =>
      let x := Byte.to_N x in
      let y := Byte.to_N y in
      String (b2a (N.shiftr x 2))
     (String (b2a (N.lor (N.shiftl (N.land x 3) 4) (N.shiftr y 4)))
     (String (b2a (N.shiftl (N.land y 15) 2)) "="))
  | x :: y :: z :: rest =>
      let x := Byte.to_N x in
      let y := Byte.to_N y in
      let z := Byte.to_N z in
      String (b2a (N.shiftr x 2))
     (String (b2a (N.lor (N.shiftl (N.land x 3) 4) (N.shiftr y 4)))
     (String (b2a (N.lor (N.shiftl (N.land y 15) 2) (N.shiftr z 6)))
     (String (b2a (N.land z 63)) (b64encode rest))))
  end.

(** The scanning loop of [binascii.a2b_base64] with [strict_mode] off:
    [quad_pos] is the position inside the current group of four,
    [leftchar] the bits not yet written, [pads] the padding characters seen
    since the last data character, [out] the bytes written so far. *)
Fixpoint a2b_loop (s : string) (quad_pos : nat) (leftchar : N) (pads : nat)
  (out : list Byte.byte) : exn + list Byte.byte :=
  match s with
  | EmptyString =>
      match quad_pos with
      | O => inr out
      | S O => inl (BinasciiError
          "Invalid base64-encoded string: number of data characters cannot be 1 more than a multiple of 4")
      | _ => inl (BinasciiError "Incorrect padding")
      end
  | String c s' =>
      if Ascii.eqb c "="%char then
        if (2 <=? quad_pos)%nat then
          if (4 <=? quad_pos + S pads)%nat then inr out
          else a2b_loop s' quad_pos leftchar (S pads) out
        else a2b_loop s' quad_pos leftchar pads out
      else
        match a2b c with
        | None => a2b_loop s' quad_pos leftchar pads out
        | Some this_ch =>
            match quad_pos with
            | O => a2b_loop s' 1%nat this_ch O out
            | S O =>
                a2b_loop s' 2%nat (N.land this_ch 15) O
                  (out ++ [byte_of_N (N.lor (N.shiftl leftchar 2) (N.shiftr this_ch 4))])
            | S (S O) =>
                a2b_loop s' 3%nat (N.land this_ch 3) O
                  (out ++ [byte_of_N (N.lor (N.shiftl leftchar 4) (N.shiftr this_ch 2))])
            | _ =>
                a2b_loop s' O 0%N O
                  (out ++ [byte_of_N (N.lor (N.shiftl leftchar 6) this_ch)])
            end
        end
  end.

(** [s.encode('ascii')] succeeds when every character is below 128. *)
Fixpoint is_ascii (s : string) : bool :=
  match s with
  | EmptyString => true
  | String c s' => (N_of_ascii c <? 128)%N && is_ascii s'
  end.

(** [base64.b64decode(s)] on a [str] argument, [validate] left at [False]. *)
Definition b64decode (s : string) : exn + list Byte.byte :=
  if is_ascii s then a2b_loop s O 0%N O []
  else inl (ValueError "string argument should contain only ASCII characters").

End Base64.

(** ** veo/client.py *)

Module Veo.

(** A video entry of the remote response: a JSON object with string values. *)
Abbreviation Video := (gmap string string).

(** The [response] object of a finished operation, as far as the client
    reads it. *)
Record ResponseData : Type := mkResponseData {
  videos : option (list Video);
  raiMediaFilteredCount : option Z
}.

(** The JSON object a call returns, as far as the client reads it:
    [r_name] is the value under ["name"], [r_done] the truth value of
    [result.get("done", False)], [r_error] is [str(result["error"])] when the
    key is present, [r_response] the object under ["response"], and
    [r_repr] is [str(result)], the whole object as Python prints it. *)
Record ApiResult : Type := mkApiResult {
  r_name : option string;
  r_done : bool;
  r_error : option string;
  r_response : option ResponseData;
  r_repr : string
}.

(** The JSON bodies the client posts. *)
Inductive Body : Type :=
| PredictBody (prompt : string) (durationSeconds : Z) (resolution : string)
              (generateAudio : bool) (sampleCount : Z)
| FetchBody (operationName : string).

Record HttpReq : Type := mkHttpReq {
  endpoint : string;
  body : Body
}.

(** What the remote service does with one call: how long the call takes
    (milliseconds) and whether [_request] raises (with [str(e)]) or returns
    the decoded JSON. *)
Record Reply : Type := mkReply {
  latency : N;
  outcome : string + ApiResult
}.

(** The remote service: its reply to the [n]-th call of this process. *)
Definition Remote : Type := nat -> HttpReq -> Reply.

(** The part of the world the client touches: the wall clock (milliseconds)
    and the log of calls issued so far, each with the time it was issued. *)
Record Net : Type := mkNet {
  clock : Z;
  calls : list (Z * HttpReq)
}.

(** [time.sleep(seconds)] *)
Definition sleep (seconds : Z) (n : Net) : Net :=
  {| clock := clock n + 1000 * seconds; calls := calls n |}.

Record VeoClient : Type := mkVeoClient {
  project_id : string;
  location : string
}.

Section Client.

Variable self : VeoClient.
Variable remote : Remote.

(** [_request(endpoint, body)] *)
Definition _request (endpoint : string) (body : Body) (n : Net)
  : Net * (exn + ApiResult) :=
  let req := {| endpoint := endpoint; body := body |} in
  let reply := remote (length (calls n)) req in
  let n' := {| clock := clock n + Z.of_N (latency reply);
               calls := calls n ++ [(clock n, req)] |} in
  match outcome reply with
  | inl msg => (n', inl (External msg))
  | inr json => (n', inr json)
  end.

Definition model_endpoint (model method : string) : string :=
  "projects/" +:+ project_id self +:+ "/locations/" +:+ location self +:+
  "/publishers/google/models/" +:+ model +:+ ":" +:+ method.

(** The dictionary [generate_video] returns. *)
Record Operation : Type := mkOperation {
  operation_name : string;
  op_model : string
}.

(** [generate_video(prompt, model, duration_seconds, resolution,
    generate_audio, sample_count)] *)
Definition generate_video (prompt model : string) (duration_seconds : Z)
  (resolution : string) (generate_audio : bool) (sample_count : Z) (n : Net)
  : Net * (exn + Operation) :=
  let endpoint := model_endpoint model "predictLongRunning" in
  let body := PredictBody prompt duration_seconds resolution generate_audio sample_count in
  match _request endpoint body n with
  | (n', inl e) => (n', inl e)
  | (n', inr result) =>
      match r_name result with
      | Some name =>
          if Str.truthy name
          then (n', inr {| operation_name := name; op_model := model |})
          else (n', inl (ValueError ("Failed to get operation name: "
                                     +:+ r_repr result)))
      | None => (n', inl (ValueError ("Failed to get operation name: "
                                      +:+ r_repr result)))
      end
  end.

(** The dictionary [poll_operation] returns; [p_rai] is the entry
    ["raiMediaFilteredCount"], present only in the completed, error-free
    result. *)
Record PollResult : Type := mkPollResult {
  p_done : bool;
  p_error : option string;
  p_videos : list Video;
  p_rai : option Z
}.

Definition timed_out : PollResult :=
  {| p_done := false; p_error := Some "Operation timed out";
     p_videos := []; p_rai := None |}.

(** The [while] loop of [poll_operation]; one unit of [fuel] per evaluation
    of the loop condition. *)
Fixpoint poll_loop (fuel : nat) (endpoint operation_name : string)
  (start_time max_wait_time : Z) (n : Net) : option (Net * PollResult) :=
  match fuel with
  | O => None
  | S fuel' =>
      if (clock n - start_time <? 1000 * max_wait_time)%Z then
        match _request endpoint (FetchBody operation_name) n with
        | (n', inl e) =>
            Some (n', {| p_done := true;
                         p_error := Some ("API request failed: " +:+ exn_str e);
                         p_videos := []; p_rai := None |})
        | (n', inr result) =>
            if r_done result then
              match r_error result with
              | Some err =>
                  Some (n', {| p_done := true; p_error := Some err;
                               p_videos := []; p_rai := None |})
              | None =>
                  let response_data :=
                    default {| videos := None; raiMediaFilteredCount := None |}
                            (r_response result) in
                  Some (n', {| p_done := true; p_error := None;
                               p_videos := default [] (videos response_data);
                               p_rai := Some (default 0 (raiMediaFilteredCount response_data)) |})
              end
            else poll_loop fuel' endpoint operation_name start_time max_wait_time
                           (sleep 5 n')
        end
      else Some (n, timed_out)
  end.

(** Every turn of the loop that does not return sleeps five seconds, so the
    condition is evaluated at most [max_wait_time / 5 + 2] times. *)
Definition poll_fuel (max_wait_time : Z) : nat :=
  S (S (Z.to_nat (max_wait_time / 5))).

(** [poll_operation(operation_name, model, max_wait_time)]. The fuel of
    [poll_fuel] always suffices ([poll_loop_total] below), so the last
    branch is never taken. *)
Definition poll_operation (operation_name model : string) (max_wait_time : Z)
  (n : Net) : Net * PollResult :=
  let endpoint := model_endpoint model "fetchPredictOperation" in
  let start_time := clock n in
  match poll_loop (poll_fuel max_wait_time) endpoint operation_name
                  start_time max_wait_time n with
  | Some r => r
  | None => (n, timed_out)
  end.

End Client.

(** What object storage does with [bucket(b).blob(p).download_as_bytes()]:
    raise (with [str(e)]) or return the object's bytes. *)
Definition Gcs : Type := string -> string -> string + list Byte.byte.

Definition unsupported_encoding : exn :=
  ValueError "Video data must contain either 'gcsUri' or 'bytesBase64Encoded'".

(** The object-storage branch of [download_video], lines 80 to 82. *)
Definition download_from_gcs (gcs : Gcs) (uri : string) : exn + list Byte.byte :=
  match Str.split_once "/" (Str.remove_all "gs://" uri) with
  | Some (bucket_name, blob_path) =>
      match gcs bucket_name blob_path with
      | inl msg => inl (External msg)
      | inr data => inr data
      end
  | None => inl (ValueError "not enough values to unpack (expected 2, got 1)")
  end.

(** [download_video(video_data)] *)
Definition download_video (gcs : Gcs) (video_data : Video) : exn + list Byte.byte :=
  match video_data !! "gcsUri" with
  | Some uri => download_from_gcs gcs uri
  | None =>
      match video_data !! "bytesBase64Encoded" with
      | Some payload => Base64.b64decode payload
      | None => inl unsupported_encoding
      end
  end.

End Veo.

(** ** storage/manager.py *)

Module Storage.

(** The temporary directory: the files that exist, with their contents. *)
Abbreviation Files := (gmap string (list Byte.byte)).

(** What the file system does during one request: the path [mkstemp] picks
    for a suffix (or the error it raises), and whether writing or unlinking
    raises. *)
Record FsEnv : Type := mkFsEnv {
  mkstemp : string -> string + string;
  write_error : option string;
  unlink_error : option string
}.

(** [create_temp_file(suffix)]: [mkstemp] creates the (empty) file. *)
Definition create_temp_file (fs : FsEnv) (suffix : string) (files : Files)
  : Files * (exn + string) :=
  match mkstemp fs suffix with
  | inl msg => (files, inl (External msg))
  | inr path => (<[path := []]> files, inr path)
  end.

(** [path.write_bytes(data)] *)
Definition write_bytes (fs : FsEnv) (path : string) (data : list Byte.byte)
  (files : Files) : Files * (exn + unit) :=
  match write_error fs with
  | Some msg => (files, inl (External msg))
  | None => (<[path := data]> files, inr tt)
  end.

(** [cleanup(file_path)]: an exception of [unlink] is swallowed. *)
Definition cleanup (fs : FsEnv) (file_path : string) (files : Files) : Files :=
  match files !! file_path with
  | Some _ =>
      match unlink_error fs with
      | Some _ => files
      | None => delete file_path files
      end
  | None => files
  end.

End Storage.

(** ** bot/handlers/messages.py: the request pipeline *)

Module Bot.

(** The state shared by all requests. *)
Record World : Type := mkWorld {
  settings : SettingsDb.Table;
  messages : MessagesDb.Table;
  files : Storage.Files;
  net : Veo.Net
}.

(** The external collaborators as one request meets them. *)
Record Env : Type := mkEnv {
  veo_client : Veo.VeoClient;
  remote : Veo.Remote;
  gcs : Veo.Gcs;
  fs : Storage.FsEnv
}.

(** The inbound chat message, as far as the handler reads it. *)
Record Message : Type := mkMessage {
  from_id : Z;
  from_username : option string;
  from_first_name : string;
  text : option string
}.

(** The texts the handler sends, by template and arguments. *)
Inductive BotText : Type :=
| SendTextPrompt
| ProvideTextPrompt
| QuotaLimitReached (limit videos_generated : Z) (total_cost : Q) (remaining_quota : Z)
| GenerationRequested
| GenerationStarted
| GenerationFailed (error : string)
| GenerationTimedOut
| NoVideosGenerated
| DownloadingVideo
| UploadingVideo
| ErrorOccurred (error_msg : string).

(** The caption of the delivered video, by its arguments. *)
Record Caption : Type := mkCaption {
  c_minutes : Z;
  c_seconds : Z;
  c_prompt : string;
  c_model : string;
  c_duration : Z;
  c_resolution : string;
  c_audio : bool;
  c_filtered : option Z;
  c_cost : F64.float;
  c_rate : F64.float
}.

(** The awaited calls into the chat platform; [EditText] and [Delete] act
    on the status message of the request. *)
Inductive TgCall : Type :=
| Answer (t : BotText)
| EditText (t : BotText)
| AnswerVideo (video : string) (caption : Caption)
| Delete.

(** A coroutine run up to its next [await] (or to its end): [Yield w c k]
    is suspended in [await c] having left the world at [w]; it is resumed by
    [k o w'] with the outcome of the call ([Some msg]: the call raised) and
    the world as it is by then. *)
Inductive Step (A : Type) : Type :=
| Done (w : World) (r : exn + A)
| Yield (w : World) (c : TgCall) (k : option string -> World -> Step A).

Arguments Done {A} w r.
Arguments Yield {A} w c k.

Definition Coro (A : Type) : Type := World -> Step A.

Definition ret {A : Type} (a : A) : Coro A := fun w => Done w (inr a).

Definition raise {A : Type} (e : exn) : Coro A := fun w => Done w (inl e).

Fixpoint bind_step {A B : Type} (s : Step A) (f : A -> Coro B) : Step B :=
  match s with
  | Done w (inr a) => f a w
  | Done w (inl e) => Done w (inl e)
  | Yield w c k => Yield w c (fun o w' => bind_step (k o w') f)
  end.

Definition bind {A B : Type} (m : Coro A) (f : A -> Coro B) : Coro B :=
  fun w => bind_step (m w) f.

Notation "x <- m ;; k" := (bind m (fun x => k))
  (at level 20, m at level 99, k at level 200, only parsing).

(** [await call] *)
Definition await (c : TgCall) : Coro unit :=
  fun w => Yield w c (fun o w' =>
    match o with
    | None => Done w' (inr tt)
    | Some msg => Done w' (inl (External msg))
    end).

(** [try: m except Exception as e: h e] *)
Fixpoint except_step {A : Type} (s : Step A) (h : exn -> Coro A) : Step A :=
  match s with
  | Done w (inr a) => Done w (inr a)
  | Done w (inl e) => h e w
  | Yield w c k => Yield w c (fun o w' => except_step (k o w') h)
  end.

Definition try_except {A : Type} (m : Coro A) (h : exn -> Coro A) : Coro A :=
  fun w => except_step (m w) h.

(** [try: m finally: fin] for a [fin] that neither raises nor awaits. *)
Fixpoint finally_step {A : Type} (s : Step A) (fin : World -> World) : Step A :=
  match s with
  | Done w r => Done (fin w) r
  | Yield w c k => Yield w c (fun o w' => finally_step (k o w') fin)
  end.

Definition try_finally {A : Type} (m : Coro A) (fin : World -> World) : Coro A :=
  fun w => finally_step (m w) fin.

(** A call that touches nothing of the world: it returns or raises. *)
Definition of_result {A : Type} (r : exn + A) : Coro A := fun w => Done w r.

(** Synchronous calls into the components, lifted to the shared world. *)

Definition get_successful_videos_count : Coro Z :=
  fun w => Done w (inr (MessagesDb.get_successful_videos_count (messages w))).

Definition get_total_cost : Coro Q :=
  fun w => Done w (inr (MessagesDb.get_total_cost (messages w))).

Definition get_user_settings (uid : Z) : Coro SettingsDb.UserSettings :=
  fun w => Done w (inr (SettingsDb.get_user_settings (settings w) uid)).

Definition time : Coro Z :=
  fun w => Done w (inr (Veo.clock (net w))).

Definition create_message (user_id : Z) (username : option string)
  (model : string) (duration_seconds : Z) (resolution : string)
  (status : string) : Coro Z :=
  fun w =>
    let '(t, new_id) :=
      MessagesDb.create_message (messages w) (Veo.clock (net w)) user_id username
        model duration_seconds resolution 0 0 0%Q status in
    Done {| settings := settings w; messages := t;
            files := files w; net := net w |} (inr new_id).

Definition update_message (message_id : Z) (cost : option Q)
  (status : option string) : Coro unit :=
  fun w =>
    Done {| settings := settings w;
            messages := MessagesDb.update_message (messages w) message_id
                          None None cost status;
            files := files w; net := net w |} (inr tt).

Definition lift_net {A : Type} (f : Veo.Net -> Veo.Net * A) : World -> World * A :=
  fun w =>
    let '(n, a) := f (net w) in
    ({| settings := settings w; messages := messages w;
        files := files w; net := n |}, a).

Definition lift_files {A : Type} (f : Storage.Files -> Storage.Files * A)
  : World -> World * A :=
  fun w =>
    let '(fl, a) := f (files w) in
    ({| settings := settings w; messages := messages w;
        files := fl; net := net w |}, a).

Definition generate_video (env : Env) (prompt model : string)
  (duration_seconds : Z) (resolution : string) (generate_audio : bool)
  (sample_count : Z) : Coro Veo.Operation :=
  fun w =>
    let '(w', r) :=
      lift_net (Veo.generate_video (veo_client env) (remote env) prompt model
                  duration_seconds resolution generate_audio sample_count) w in
    Done w' r.

Definition poll_operation (env : Env) (operation_name model : string)
  (max_wait_time : Z) : Coro Veo.PollResult :=
  fun w =>
    let '(w', r) :=
      lift_net (Veo.poll_operation (veo_client env) (remote env)
                  operation_name model max_wait_time) w in
    Done w' (inr r).

Definition download_video (env : Env) (video_data : Veo.Video)
  : Coro (list Byte.byte) :=
  fun w => Done w (Veo.download_video (gcs env) video_data).

Definition create_temp_file (env : Env) (suffix : string) : Coro string :=
  fun w =>
    let '(w', r) := lift_files (Storage.create_temp_file (fs env) suffix) w in
    Done w' r.

Definition write_bytes (env : Env) (path : string) (data : list Byte.byte)
  : Coro unit :=
  fun w =>
    let '(w', r) := lift_files (Storage.write_bytes (fs env) path data) w in
    Done w' r.

Definition cleanup (env : Env) (file_path : string) : World -> World :=
  fun w =>
    {| settings := settings w; messages := messages w;
       files := Storage.cleanup (fs env) file_path (files w); net := net w |}.

(** [a or b] on optional strings and strings. *)
Definition username_of (message : Message) : string :=
  match from_username message with
  | Some u => if Str.truthy u then u
              else if Str.truthy (from_first_name message)
                   then from_first_name message else "Unknown"
  | None => if Str.truthy (from_first_name message)
            then from_first_name message else "Unknown"
  end.

(** The truncation of lines 222 to 225. *)
Definition bounded_error (e : exn) : string :=
  let error_msg := exn_str e in
  if (200 <? String.length error_msg)%nat
  then Str.take 200 error_msg +:+ "..."
  else error_msg.

(** The part of [handle_message] inside [try:], lines 90 to 214. *)
Definition generation (env : Env) (prompt : string)
  (user_settings : SettingsDb.UserSettings) (message_id : Z) : Coro unit :=
  start_time <- time ;;
  result <- generate_video env prompt (SettingsDb.model user_settings)
              (SettingsDb.duration user_settings)
              (SettingsDb.resolution user_settings) true 1 ;;
  let operation_name := Veo.operation_name result in
  _ <- await (EditText GenerationStarted) ;;
  poll_result <- poll_operation env operation_name
                   (SettingsDb.model user_settings) 600 ;;
  if Str.truthy (default "" (Veo.p_error poll_result)) then
    _ <- update_message message_id None (Some "failed") ;;
    await (EditText (GenerationFailed (default "" (Veo.p_error poll_result))))
  else if negb (Veo.p_done poll_result) then
    _ <- update_message message_id None (Some "failed") ;;
    await (EditText GenerationTimedOut)
  else
    match Veo.p_videos poll_result with
    | [] =>
        _ <- update_message message_id None (Some "failed") ;;
        await (EditText NoVideosGenerated)
    | video_data :: _ =>
        now <- time ;;
        let elapsed_time := now - start_time in
        let minutes := elapsed_time / 60000 in
        let seconds := (elapsed_time mod 60000) / 1000 in
        cost <- of_result (calculate_cost (SettingsDb.model user_settings)
                                          (SettingsDb.duration user_settings)) ;;
        _ <- await (EditText DownloadingVideo) ;;
        video_bytes <- download_video env video_data ;;
        temp_file <- create_temp_file env ".mp4" ;;
        _ <- write_bytes env temp_file video_bytes ;;
        _ <- await (EditText UploadingVideo) ;;
        let rai_filtered := default 0 (Veo.p_rai poll_result) in
        let caption :=
          {| c_minutes := minutes; c_seconds := seconds;
             c_prompt := Str.take 200 prompt +:+
                         (if (200 <? String.length prompt)%nat then "..." else "");
             c_model := SettingsDb.model user_settings;
             c_duration := SettingsDb.duration user_settings;
             c_resolution := SettingsDb.resolution user_settings;
             c_audio := true;
             c_filtered := if (0 <? rai_filtered)%Z then Some rai_filtered else None;
             c_cost := cost;
             c_rate := if Str.contains "fast" (Str.lower (SettingsDb.model user_settings))
                       then F64.lit 0.15 else F64.lit 0.40 |} in
        _ <- try_finally (await (AnswerVideo temp_file caption))
                         (cleanup env temp_file) ;;
        _ <- update_message message_id (Some (F64.value cost)) (Some "success") ;;
        await Delete
    end.

(** [handle_message(message)] *)
Definition handle_message (env : Env) (message : Message) : Coro unit :=
  let user_id := from_id message in
  let username := username_of message in
  if negb (Str.truthy (default "" (text message))) then
    await (Answer SendTextPrompt)
  else
    let prompt := Str.strip (default "" (text message)) in
    if negb (Str.truthy prompt) then
      await (Answer ProvideTextPrompt)
    else
      videos_generated <- get_successful_videos_count ;;
      total_cost <- get_total_cost ;;
      if (Config.GLOBAL_VIDEO_QUOTA_LIMIT <=? videos_generated)%Z then
        let remaining_quota := Config.GLOBAL_VIDEO_QUOTA_LIMIT - videos_generated in
        await (Answer (QuotaLimitReached Config.GLOBAL_VIDEO_QUOTA_LIMIT
                         videos_generated total_cost remaining_quota))
      else
        user_settings <- get_user_settings user_id ;;
        message_id <- create_message user_id (Some username)
                        (SettingsDb.model user_settings)
                        (SettingsDb.duration user_settings)
                        (SettingsDb.resolution user_settings) "pending" ;;
        _ <- await (Answer GenerationRequested) ;;
        try_except (generation env prompt user_settings message_id)
          (fun e =>
             _ <- update_message message_id None (Some "failed") ;;
             await (EditText (ErrorOccurred (bounded_error e)))).

(** *** Running coroutines *)

(** One request run to its end on its own; [tg] is the chat platform's
    answer to each call. Returns the calls made, in order, the final world
    and the handler's result. *)
Fixpoint run {A : Type} (tg : TgCall -> option string) (s : Step A)
  : list TgCall * World * (exn + A) :=
  match s with
  | Done w r => ([], w, r)
  | Yield w c k =>
      let '(cs, w', r) := run tg (k (tg c) w) in
      (c :: cs, w', r)
  end.

(** The event loop: the shared world and the handlers suspended in an
    [await], oldest first. *)
Record Loop : Type := mkLoop {
  world : World;
  waiting : list (TgCall * (option string -> World -> Step unit))
}.

(** What can happen next: a message arrives and its handler runs up to its
    first [await]; or the awaited call of the [i]-th suspended handler
    completes with outcome [o] and the handler runs up to its next [await]. *)
Inductive Action : Type :=
| Arrive (env : Env) (message : Message)
| Resume (i : nat) (o : option string).

Definition settle (s : Step unit)
  (others : list (TgCall * (option string -> World -> Step unit))) : Loop :=
  match s with
  | Done w _ => {| world := w; waiting := others |}
  | Yield w c k => {| world := w; waiting := others ++ [(c, k)] |}
  end.

Definition step (l : Loop) (a : Action) : Loop :=
  match a with
  | Arrive env message => settle (handle_message env message (world l)) (waiting l)
  | Resume i o =>
      match waiting l !! i with
      | Some (_, k) => settle (k o (world l)) (delete i (waiting l))
      | None => l
      end
  end.

Definition steps (l : Loop) (acts : list Action) : Loop := fold_left step acts l.

End Bot.

(** ** bot/handlers/commands.py *)

Module Commands.

(** The texts the command handlers answer with, by template and arguments. *)
Inductive Reply : Type :=
| Welcome
| HelpText
| CurrentSettings (model : string) (duration : Z) (resolution : string)
| SpecifyModel
| InvalidModel (model : string) (veo3_1_models veo3_0_models : list string)
| ModelSet (model : string)
| SpecifyDuration (model_type model : string) (duration : Z)
| DurationNotANumber (model_type : string)
| InvalidDuration (duration : Z) (model_type model : string)
| DurationSet (duration : Z) (model : string)
| SpecifyResolution
| InvalidResolution (resolution : string) (valid_resolutions : list string)
| ResolutionWarning (model resolution : string)
| ResolutionSet (resolution : string)
| SettingsReset (model : string) (duration : Z) (resolution : string)
| Statistics (stats : MessagesDb.Stats).

Definition valid_models : list string :=
  [ "veo-3.1-generate-001";
    "veo-3.1-fast-generate-001";
    "veo-3.1-generate-preview";
    "veo-3.1-fast-generate-preview";
    "veo-3.0-generate-001";
    "veo-3.0-fast-generate-001" ].

Definition valid_durations : list Z := [4; 6; 8].

Definition valid_resolutions : list string := ["720p"; "1080p"].

(** Each handler takes the sender's id and the text of the message, and
    the tables it works on; it returns the tables and the one answer it
    awaits as its last action. *)

Definition cmd_start : Reply := Welcome.

Definition cmd_help : Reply := HelpText.

Definition cmd_settings (user_id : Z) (db : SettingsDb.Table) : Reply :=
  let user_settings := SettingsDb.get_user_settings db user_id in
  CurrentSettings (SettingsDb.model user_settings)
    (SettingsDb.duration user_settings) (SettingsDb.resolution user_settings).

Definition cmd_reset (user_id : Z) (db : SettingsDb.Table)
  : SettingsDb.Table * Reply :=
  (fst (SettingsDb.reset_user_settings db user_id),
   SettingsReset Config.DEFAULT_MODEL Config.DEFAULT_DURATION
     Config.DEFAULT_RESOLUTION).

Definition cmd_stats (t : MessagesDb.Table) : Reply :=
  Statistics (MessagesDb.get_stats t).

Section Builtins.

(** Python's own [str.split(maxsplit=1)] and [int] ([None]: it raises
    [ValueError]); the handlers are taken over whatever these two do. *)
Variable split : string -> list string.
Variable int : string -> option Z.

Definition cmd_setmodel (user_id : Z) (text : string) (db : SettingsDb.Table)
  : SettingsDb.Table * Reply :=
  let parts := split text in
  if (length parts <? 2)%nat then (db, SpecifyModel)
  else
    let model := Str.strip (nth 1 parts EmptyString) in
    if negb (existsb (String.eqb model) valid_models) then
      let veo3_1_models := List.filter (Str.contains "veo-3.1") valid_models in
      let veo3_0_models := List.filter (Str.contains "veo-3.0") valid_models in
      (db, InvalidModel model veo3_1_models veo3_0_models)
    else
      (fst (SettingsDb.set_user_settings db user_id (Some model) None None),
       ModelSet model).

Definition cmd_setduration (user_id : Z) (text : string) (db : SettingsDb.Table)
  : SettingsDb.Table * Reply :=
  let user_settings := SettingsDb.get_user_settings db user_id in
  let model := SettingsDb.model user_settings in
  let is_veo3_0 := Str.contains "veo-3.0" model in
  let is_veo3_1 := Str.contains "veo-3.1" model in
  let model_type :=
    if is_veo3_0 then "Veo 3.0" else if is_veo3_1 then "Veo 3.1" else "Veo 3" in
  let parts := split text in
  if (length parts <? 2)%nat then
    (db, SpecifyDuration model_type model (SettingsDb.duration user_settings))
  else
    match int (Str.strip (nth 1 parts EmptyString)) with
    | None => (db, DurationNotANumber model_type)
    | Some duration =>
        if negb (existsb (Z.eqb duration) valid_durations) then
          (db, InvalidDuration duration model_type model)
        else
          (fst (SettingsDb.set_user_settings db user_id None (Some duration) None),
           DurationSet duration model)
    end.

Definition cmd_setresolution (user_id : Z) (text : string)
  (db : SettingsDb.Table) : SettingsDb.Table * Reply :=
  let parts := split text in
  if (length parts <? 2)%nat then (db, SpecifyResolution)
  else
    let resolution := Str.lower (Str.strip (nth 1 parts EmptyString)) in
    if negb (existsb (String.eqb resolution) valid_resolutions) then
      (db, InvalidResolution resolution valid_resolutions)
    else
      let user_settings := SettingsDb.get_user_settings db user_id in
      let model := SettingsDb.model user_settings in
      let db' :=
        fst (SettingsDb.set_user_settings db user_id None None (Some resolution)) in
      if (String.eqb resolution "1080p" && negb (Str.contains "veo-3" model))%bool
      then (db', ResolutionWarning model resolution)
      else (db', ResolutionSet resolution).

(** The handlers of the router, by the command each is registered for. *)
Inductive Handler : Type :=
| Start | Help | Settings | SetModel | SetDuration | SetResolution | Reset
| Stats.

(** One command served: the handler run on the bot's tables. *)
Definition handle (h : Handler) (user_id : Z) (text : string) (w : Bot.World)
  : Bot.World * Reply :=
  let stored db :=
    {| Bot.settings := db; Bot.messages := Bot.messages w;
       Bot.files := Bot.files w; Bot.net := Bot.net w |} in
  match h with
  | Start => (w, cmd_start)
  | Help => (w, cmd_help)
  | Settings => (w, cmd_settings user_id (Bot.settings w))
  | SetModel =>
      let '(db, r) := cmd_setmodel user_id text (Bot.settings w) in (stored db, r)
  | SetDuration =>
      let '(db, r) := cmd_setduration user_id text (Bot.settings w) in (stored db, r)
  | SetResolution =>
      let '(db, r) := cmd_setresolution user_id text (Bot.settings w) in (stored db, r)
  | Reset =>
      let '(db, r) := cmd_reset user_id (Bot.settings w) in (stored db, r)
  | Stats => (w, cmd_stats (Bot.messages w))
  end.

(** What the bot serves: a command, or a step of the prompt handlers. *)
Inductive Event : Type :=
| Command (h : Handler) (user_id : Z) (text : string)
| Request (a : Bot.Action).

(** The event loop with the command handlers added; a command handler runs
    to its one [await] and leaves nothing to resume. Returns the answers to
    the commands, oldest first. *)
Fixpoint serve (l : Bot.Loop) (events : list Event) : Bot.Loop * list Reply :=
  match events with
  | [] => (l, [])
  | Command h user_id text :: events' =>
      let '(w, r) := handle h user_id text (Bot.world l) in
      let '(l', rs) :=
        serve {| Bot.world := w; Bot.waiting := Bot.waiting l |} events' in
      (l', r :: rs)
  | Request a :: events' => serve (Bot.step l a) events'
  end.

End Builtins.

End Commands.

(** * Concrete requests and collaborators *)

Module Scenario.

Import Bot.

Definition client : Veo.VeoClient :=
  {| Veo.project_id := "demo"; Veo.location := "us-central1" |}.

(** A video entry carrying the two bytes "hi" inline. *)
Definition inline_video : Veo.Video := {[ "bytesBase64Encoded" := "aGk=" ]}.

Definition accepted : Veo.ApiResult :=
  {| Veo.r_name := Some "operations/1"; Veo.r_done := false;
     Veo.r_error := None; Veo.r_response := None;
     Veo.r_repr := "{'name': 'operations/1'}" |}.

Definition running : Veo.ApiResult :=
  {| Veo.r_name := Some "operations/1"; Veo.r_done := false;
     Veo.r_error := None; Veo.r_response := None;
     Veo.r_repr := "{'name': 'operations/1'}" |}.

Definition finished : Veo.ApiResult :=
  {| Veo.r_name := Some "operations/1"; Veo.r_done := true;
     Veo.r_error := None;
     Veo.r_response := Some {| Veo.videos := Some [inline_video];
                               Veo.raiMediaFilteredCount := None |};
     Veo.r_repr := "{'name': 'operations/1', 'done': True, 'response': "
                   +:+ "{'videos': [{'bytesBase64Encoded': 'aGk='}]}}" |}.

(** A remote that accepts every job and reports it finished at the first
    status call. *)
Definition quick_remote : Veo.Remote :=
  fun _ req =>
    match Veo.body req with
    | Veo.PredictBody _ _ _ _ _ =>
        {| Veo.latency := 200; Veo.outcome := inr accepted |}
    | Veo.FetchBody _ =>
        {| Veo.latency := 300; Veo.outcome := inr finished |}
    end.

(** A remote whose first two replies are "not done" and whose later replies
    are "done". *)
Definition slow_remote : Veo.Remote :=
  fun i _ =>
    if (i <? 2)%nat
    then {| Veo.latency := 300; Veo.outcome := inr running |}
    else {| Veo.latency := 300; Veo.outcome := inr finished |}.

(** A remote that never reports "done". *)
Definition stuck_remote : Veo.Remote :=
  fun _ _ => {| Veo.latency := 300; Veo.outcome := inr running |}.

(** A remote whose first status reply is "not done" and whose second status
    call raises. *)
Definition failing_remote : Veo.Remote :=
  fun i _ =>
    if (i <? 1)%nat
    then {| Veo.latency := 300; Veo.outcome := inr running |}
    else {| Veo.latency := 30000; Veo.outcome := inl "Read timed out." |}.

(** A remote whose first status reply is "not done" and whose second one
    reports that the job failed. *)
Definition refusing_remote : Veo.Remote :=
  fun i _ =>
    if (i <? 1)%nat
    then {| Veo.latency := 300; Veo.outcome := inr running |}
    else {| Veo.latency := 300;
            Veo.outcome :=
              inr {| Veo.r_name := Some "operations/1"; Veo.r_done := true;
                     Veo.r_error := Some "{'code': 3, 'message': 'filtered'}";
                     Veo.r_response := None;
                     Veo.r_repr := "{'name': 'operations/1', 'done': True, "
                                   +:+ "'error': {'code': 3, 'message': 'filtered'}}" |} |}.

Definition no_gcs : Veo.Gcs := fun _ _ => inl "no object storage".

Definition temp_path : string := "/tmp/telegram-video-gen/tmp0.mp4".

Definition healthy_fs : Storage.FsEnv :=
  {| Storage.mkstemp := fun suffix => inr ("/tmp/telegram-video-gen/tmp0" +:+ suffix);
     Storage.write_error := None; Storage.unlink_error := None |}.

(** A disk on which the file can be created but not written. *)
Definition full_disk : Storage.FsEnv :=
  {| Storage.mkstemp := fun suffix => inr ("/tmp/telegram-video-gen/tmp0" +:+ suffix);
     Storage.write_error := Some "[Errno 28] No space left on device";
     Storage.unlink_error := None |}.

Definition env : Env :=
  {| veo_client := client; remote := quick_remote; gcs := no_gcs;
     fs := healthy_fs |}.

Definition env_stuck : Env :=
  {| veo_client := client; remote :=
       fun i req =>
         match Veo.body req with
         | Veo.PredictBody _ _ _ _ _ => quick_remote i req
         | Veo.FetchBody _ => stuck_remote i req
         end;
     gcs := no_gcs; fs := healthy_fs |}.

Definition env_full_disk : Env :=
  {| veo_client := client; remote := quick_remote; gcs := no_gcs;
     fs := full_disk |}.

(** The bot when the remote service cannot be reached. *)
Definition env_down : Env :=
  {| veo_client := client;
     remote := fun _ _ => {| Veo.latency := 100;
                             Veo.outcome := inl "Connection refused" |};
     gcs := no_gcs; fs := healthy_fs |}.

Definition sunset : Message :=
  {| from_id := 7; from_username := Some "ann"; from_first_name := "Ann";
     text := Some "sunset" |}.

Definition harbour : Message :=
  {| from_id := 8; from_username := Some "bob"; from_first_name := "Bob";
     text := Some "a harbour at dawn" |}.

Definition meadow : Message :=
  {| from_id := 9; from_username := None; from_first_name := "Cy";
     text := Some "a meadow in the rain" |}.

(** The chat platform when every call succeeds. *)
Definition tg_ok : TgCall -> option string := fun _ => None.

(** The chat platform when the status message is gone by the time the
    handler deletes it. *)
Definition tg_delete_fails : TgCall -> option string :=
  fun c => match c with
           | Delete => Some "Bad Request: message to delete not found"
           | _ => None
           end.

(** The chat platform when the edit to the "uploading" notice fails. *)
Definition tg_notice_fails : TgCall -> option string :=
  fun c => match c with
           | EditText UploadingVideo => Some "Bad Request: message to edit not found"
           | _ => None
           end.

(** The chat platform when sending the video fails. *)
Definition tg_video_fails : TgCall -> option string :=
  fun c => match c with
           | AnswerVideo _ _ => Some "Request Entity Too Large"
           | _ => None
           end.

Definition idle_net : Veo.Net := {| Veo.clock := 0; Veo.calls := [] |}.

(** A ledger of [k] delivered videos. *)
Definition delivered (k : nat) : MessagesDb.Table :=
  {| MessagesDb.rows :=
       map (fun i : nat =>
              {| MessagesDb.id := Z.of_nat i; MessagesDb.user_id := 7;
                 MessagesDb.username := Some "ann"; MessagesDb.timestamp := 0;
                 MessagesDb.prompt_tokens := 0;
                 MessagesDb.output_prompt_tokens := 0;
                 MessagesDb.model := "veo-3.1-fast-generate-001";
                 MessagesDb.cost := F64.value (F64.lit 1.20);
                 MessagesDb.duration_seconds := 8;
                 MessagesDb.resolution := "720p";
                 MessagesDb.status := "success" |})
           (seq 1 k);
     MessagesDb.last_id := Z.of_nat k |}.

(** A ledger of two delivered videos, then a request that failed and one
    still pending, both at no cost. *)
Definition mixed : MessagesDb.Table :=
  let t1 := fst (MessagesDb.create_message (delivered 2) 0 8 (Some "bob")
                   "veo-3.1-generate-001" 6 "1080p" 0 0 0%Q "pending") in
  let t2 := fst (MessagesDb.create_message t1 0 9 None
                   "veo-3.1-fast-generate-001" 4 "720p" 0 0 0%Q "pending") in
  MessagesDb.update_message t2 3 None None None (Some "failed").

(** The bot before any request. *)
Definition fresh : World :=
  {| settings := ∅; messages := MessagesDb.empty; files := ∅; net := idle_net |}.

(** The bot one delivered video short of the quota. *)
Definition one_left : World :=
  {| settings := ∅; messages := delivered 69; files := ∅; net := idle_net |}.

(** The status and cost of the row with a given id, if there is one. *)
Definition outcome_of (message_id : Z) (w : World) : option (string * Q) :=
  match filter (fun r => MessagesDb.id r = message_id)
               (MessagesDb.rows (messages w)) with
  | r :: _ => Some (MessagesDb.status r, MessagesDb.cost r)
  | [] => None
  end.

(** The calls in which the suspended handlers wait, oldest first. *)
Definition awaited (l : Loop) : list TgCall := map fst (waiting l).

(** A request taken from its arrival to the [await] of line 214: every call
    to the chat platform on the way succeeds. *)
Definition delivery : Message -> list Action :=
  fun message =>
    [Arrive env message; Resume 0 None; Resume 0 None; Resume 0 None;
     Resume 0 None; Resume 0 None].

End Scenario.

(** * Vocabulary of the statements *)

(** The static default triple, for the user asked about. *)
Definition defaults (uid : Z) : SettingsDb.UserSettings :=
  {| SettingsDb.user_id := uid; SettingsDb.model := Config.DEFAULT_MODEL;
     SettingsDb.duration := Config.DEFAULT_DURATION;
     SettingsDb.resolution := Config.DEFAULT_RESOLUTION |}.

(** One call of [set_user_settings], by its arguments. *)
Record SetCall : Type := mkSetCall {
  sc_user : Z;
  sc_model : option string;
  sc_duration : option Z;
  sc_resolution : option string
}.

(** The table after a sequence of [set] calls. *)
Definition after_sets (calls : list SetCall) (db : SettingsDb.Table) : SettingsDb.Table :=
  fold_left (fun db c =>
               fst (SettingsDb.set_user_settings db (sc_user c) (sc_model c)
                      (sc_duration c) (sc_resolution c)))
            calls db.

(** The word "fast" in any mix of upper and lower case. *)
Definition fast_in_any_case (w : string) : Prop :=
  exists c1 c2 c3 c4 : ascii,
    w = String c1 (String c2 (String c3 (String c4 EmptyString)))
    /\ (c1 = "f"%char \/ c1 = "F"%char) /\ (c2 = "a"%char \/ c2 = "A"%char)
    /\ (c3 = "s"%char \/ c3 = "S"%char) /\ (c4 = "t"%char \/ c4 = "T"%char).

(** A model name contains "fast", matched without regard to case. *)
Definition mentions_fast (m : string) : Prop :=
  exists pre w post, m = pre +:+ w +:+ post /\ fast_in_any_case w.

(** [P] holds of the [fuel] numbers from [k] on; used to settle facts about
    bytes by running through all of them. *)
Fixpoint all_from (fuel : nat) (k : N) (P : N -> bool) : bool :=
  match fuel with
  | O => true
  | S fuel' => P k && all_from fuel' (N.succ k) P
  end.

(** The character numbered [n] lowers to [l] exactly when it is [l] or [u]. *)
Definition lowers_ok (l u : ascii) (n : N) : bool :=
  let c := ascii_of_N n in
  Bool.eqb (Ascii.eqb (Str.lower_char c) l) (Ascii.eqb c l || Ascii.eqb c u).

(** The second sextet of a group that starts with the bytes [x], [y]. *)
Definition sextet2 (x y : N) : N := N.lor (N.shiftl (N.land x 3) 4) (N.shiftr y 4).

(** The third sextet of a group whose second and third bytes are [y], [z]. *)
Definition sextet3 (y z : N) : N := N.lor (N.shiftl (N.land y 15) 2) (N.shiftr z 6).

(** What decoding needs of the first two sextets. *)
Definition head_ok (x y : N) : bool :=
  ((N.shiftr x 2 <? 64) && (sextet2 x y <? 64)
   && (N.lor (N.shiftl (N.shiftr x 2) 2) (N.shiftr (sextet2 x y) 4) =? x)
   && (N.land (sextet2 x y) 15 =? N.shiftr y 4))%N.

(** What decoding needs of the last two sextets. *)
Definition tail_ok (y z : N) : bool :=
  ((sextet3 y z <? 64) && (N.land z 63 <? 64)
   && (N.lor (N.shiftl (N.shiftr y 4) 4) (N.shiftr (sextet3 y z) 2) =? y)
   && (N.land (sextet3 y z) 3 =? N.shiftr z 6)
   && (N.lor (N.shiftl (N.shiftr z 6) 6) (N.land z 63) =? z))%N.

(** What decoding needs of one character of the alphabet. *)
Definition char_ok (s : N) : bool :=
  (match Base64.a2b (Base64.b2a s) with
   | Some v => (v =? s)%N
   | None => false
   end)
  && negb (Ascii.eqb (Base64.b2a s) "=")
  && (N_of_ascii (Base64.b2a s) <? 128)%N.

(** The status call [poll_operation] posts for a job handle and a model. *)
Definition status_request (self : Veo.VeoClient) (model operation_name : string)
  : Veo.HttpReq :=
  {| Veo.endpoint := Veo.model_endpoint self model "fetchPredictOperation";
     Veo.body := Veo.FetchBody operation_name |}.

(** The remote answers a call with [done] false (or absent). *)
Definition reports_pending (r : Veo.Reply) : Prop :=
  exists json, Veo.outcome r = inr json /\ Veo.r_done json = false.

(** The remote answers a call with [done] true, no error and the video
    list [[v]]. *)
Definition reports_video (r : Veo.Reply) (v : Veo.Video) : Prop :=
  exists json resp,
    Veo.outcome r = inr json /\ Veo.r_done json = true
    /\ Veo.r_error json = None /\ Veo.r_response json = Some resp
    /\ Veo.videos resp = Some [v].

(** When the [i]-th status call of a poll is issued, if the poll starts at
    time [t0] with [n0] calls already made and no earlier call ended it:
    after each call, its latency and the five seconds of sleep go by. *)
Fixpoint issue_time (remote : Veo.Remote) (req : Veo.HttpReq)
  (n0 : nat) (t0 : Z) (i : nat) : Z :=
  match i with
  | O => t0
  | S i' =>
      issue_time remote req (S n0)
        (t0 + Z.of_N (Veo.latency (remote n0 req)) + 5000) i'
  end.

(** The log entries of the first [m] status calls of such a poll. *)
Definition status_calls (remote : Veo.Remote) (req : Veo.HttpReq)
  (n0 : nat) (t0 : Z) (m : nat) : list (Z * Veo.HttpReq) :=
  map (fun i => (issue_time remote req n0 t0 i, req)) (seq 0 m).

(** The suspended handlers of a loop all end, world untouched, as soon as
    they are resumed: none of them is in the middle of a generation. *)
Definition only_answers_pending (l : Bot.Loop) : Prop :=
  Forall (fun ck => forall o w, exists r, snd ck o w = Bot.Done w r) (Bot.waiting l).

(** ** Vocabulary of the further properties *)

(** One call into the ledger, by its arguments. *)
Inductive LedgerCall : Type :=
| CallCreate (now user_id : Z) (username : option string) (model : string)
    (duration_seconds : Z) (resolution : string)
    (prompt_tokens output_prompt_tokens : Z) (cost : Q) (status : string)
| CallUpdate (message_id : Z) (prompt_tokens output_prompt_tokens : option Z)
    (cost : option Q) (status : option string).

Definition ledger_call (t : MessagesDb.Table) (c : LedgerCall) : MessagesDb.Table :=
  match c with
  | CallCreate now uid name model duration resolution pt opt cost status =>
      fst (MessagesDb.create_message t now uid name model duration resolution
             pt opt cost status)
  | CallUpdate message_id pt opt cost status =>
      MessagesDb.update_message t message_id pt opt cost status
  end.

(** The ledger after a sequence of calls, starting from the empty table. *)
Definition ledger_after (calls : list LedgerCall) : MessagesDb.Table :=
  fold_left ledger_call calls MessagesDb.empty.

(** The ids of the rows, in insertion order. *)
Definition ids (t : MessagesDb.Table) : list Z :=
  map MessagesDb.id (MessagesDb.rows t).

(** No two rows share an id, and every id is one the counter has handed out. *)
Definition ledger_wf (t : MessagesDb.Table) : Prop :=
  NoDup (ids t) /\ Forall (fun i => 0 < i <= MessagesDb.last_id t) (ids t)
  /\ 0 <= MessagesDb.last_id t.

(** 1 for a status that counts towards the quota, 0 for any other. *)
Definition counts (status : string) : Z :=
  if String.eqb status "success" then 1 else 0.

(** The later of two optional arguments wins; without it the earlier stays. *)
Definition later_or {A : Type} (later earlier : option A) : option A :=
  match later with
  | Some _ => later
  | None => earlier
  end.

(** The call raises, [str(e)] being [msg]. *)
Definition reports_failure (r : Veo.Reply) (msg : string) : Prop :=
  Veo.outcome r = inl msg.

(** The remote answers a call with [done] true and an error payload. *)
Definition reports_error (r : Veo.Reply) (err : string) : Prop :=
  exists json, Veo.outcome r = inr json /\ Veo.r_done json = true
               /\ Veo.r_error json = Some err.

(** What every result of [poll_operation] looks like. *)
Definition poll_shape (r : Veo.PollResult) : Prop :=
  (Veo.p_done r = false -> r = Veo.timed_out)
  /\ (Veo.p_error r = None -> Veo.p_done r = true)
  /\ (Veo.p_videos r <> [] -> Veo.p_done r = true /\ Veo.p_error r = None).

(** The characters [binascii.a2b_base64] looks at: those of the alphabet and
    the padding character; it steps over all others. *)
Fixpoint significant (s : string) : string :=
  match s with
  | EmptyString => EmptyString
  | String c s' =>
      if Ascii.eqb c "="%char then String c (significant s')
      else match Base64.a2b c with
           | Some _ => String c (significant s')
           | None => significant s'
           end
  end.

(** The ledger row a request creates, as [create_message] writes it. *)
Definition pending_row (message : Bot.Message) (w : Bot.World) : MessagesDb.Row :=
  let us := SettingsDb.get_user_settings (Bot.settings w) (Bot.from_id message) in
  {| MessagesDb.id := MessagesDb.last_id (Bot.messages w) + 1;
     MessagesDb.user_id := Bot.from_id message;
     MessagesDb.username := Some (Bot.username_of message);
     MessagesDb.timestamp := Veo.clock (Bot.net w);
     MessagesDb.prompt_tokens := 0;
     MessagesDb.output_prompt_tokens := 0;
     MessagesDb.model := SettingsDb.model us;
     MessagesDb.cost := 0%Q;
     MessagesDb.duration_seconds := SettingsDb.duration us;
     MessagesDb.resolution := SettingsDb.resolution us;
     MessagesDb.status := "pending" |}.

(** The same row with another status and cost. *)
Definition settled (r : MessagesDb.Row) (status : string) (cost : Q)
  : MessagesDb.Row :=
  {| MessagesDb.id := MessagesDb.id r;
     MessagesDb.user_id := MessagesDb.user_id r;
     MessagesDb.username := MessagesDb.username r;
     MessagesDb.timestamp := MessagesDb.timestamp r;
     MessagesDb.prompt_tokens := MessagesDb.prompt_tokens r;
     MessagesDb.output_prompt_tokens := MessagesDb.output_prompt_tokens r;
     MessagesDb.model := MessagesDb.model r;
     MessagesDb.cost := cost;
     MessagesDb.duration_seconds := MessagesDb.duration_seconds r;
     MessagesDb.resolution := MessagesDb.resolution r;
     MessagesDb.status := status |}.

(** A message that reaches the pipeline proper: its text has something
    besides white space, and the quota is not used up. *)
Definition accepted_in (message : Bot.Message) (w : Bot.World) : Prop :=
  Str.truthy (Str.strip (default "" (Bot.text message))) = true
  /\ MessagesDb.get_successful_videos_count (Bot.messages w)
     < Config.GLOBAL_VIDEO_QUOTA_LIMIT.

(** The world once the request's record is created. *)
Definition with_record (message : Bot.Message) (w : Bot.World) : Bot.World :=
  {| Bot.settings := Bot.settings w;
     Bot.messages :=
       {| MessagesDb.rows := MessagesDb.rows (Bot.messages w) ++ [pending_row message w];
          MessagesDb.last_id := MessagesDb.last_id (Bot.messages w) + 1 |};
     Bot.files := Bot.files w;
     Bot.net := Bot.net w |}.

(** What the handler's [except] clause does with an exception. *)
Definition on_exception (message_id : Z) (e : exn) : Bot.Coro unit :=
  Bot.bind (Bot.update_message message_id None (Some "failed"))
    (fun _ => Bot.await (Bot.EditText (Bot.ErrorOccurred (Bot.bounded_error e)))).

(** A coroutine keeps to [Y], [R] and [Q]: from the world it is started or
    resumed in to the world it leaves at its next [await] or at its end it
    keeps [R], whatever happened to the world while it was suspended; every
    call it awaits is in [Y]; its result is in [Q]. *)
Inductive Runs {A : Type} (Y : Bot.TgCall -> Prop)
  (R : Bot.World -> Bot.World -> Prop) (Q : exn + A -> Prop)
  : Bot.World -> Bot.Step A -> Prop :=
| Runs_done (w0 w : Bot.World) (r : exn + A) :
    R w0 w -> Q r -> Runs Y R Q w0 (Bot.Done w r)
| Runs_yield (w0 w : Bot.World) (c : Bot.TgCall)
    (k : option string -> Bot.World -> Bot.Step A) :
    R w0 w -> Y c -> (forall o w', Runs Y R Q w' (k o w')) ->
    Runs Y R Q w0 (Bot.Yield w c k).

(** Between two rows: the second is the first, but for status and cost if
    the id is [message_id]. *)
Definition same_but_outcome (message_id : Z) (r r' : MessagesDb.Row) : Prop :=
  (exists st c, r' = settled r st c) /\ (MessagesDb.id r <> message_id -> r' = r).

(** Between two worlds: same settings, same ledger but for the status and
    cost of the records with id [message_id]. *)
Definition own_record (message_id : Z) (w0 w : Bot.World) : Prop :=
  Bot.settings w = Bot.settings w0
  /\ MessagesDb.last_id (Bot.messages w) = MessagesDb.last_id (Bot.messages w0)
  /\ Forall2 (same_but_outcome message_id)
       (MessagesDb.rows (Bot.messages w0)) (MessagesDb.rows (Bot.messages w)).

(** The call is not the edit that shows the notice of line 128. *)
Definition not_the_timeout_notice (c : Bot.TgCall) : Prop :=
  c <> Bot.EditText Bot.GenerationTimedOut.

(** The result of a poll, if there is one, has the shape of a poll result. *)
Definition polled (r : exn + Veo.PollResult) : Prop :=
  match r with
  | inr pr => poll_shape pr
  | inl _ => True
  end.

(** Every suspended handler of the loop waits in a call in [Y], and from
    wherever it is resumed keeps to [Y] and [R]. *)
Definition waits_within (Y : Bot.TgCall -> Prop)
  (R : Bot.World -> Bot.World -> Prop) (l : Bot.Loop) : Prop :=
  Forall (fun ck => Y (fst ck)
                    /\ forall o w', Runs Y R (fun _ => True) w' (snd ck o w'))
         (Bot.waiting l).

(** Between two rows: the second is the first but for status and cost. *)
Definition outcome_only (r r' : MessagesDb.Row) : Prop :=
  exists st c, r' = settled r st c.

(** Between two worlds: same settings; the ledger has the records it had,
    in their order and the same but for status and cost, and perhaps more
    after them. *)
Definition ledger_grows (w0 w : Bot.World) : Prop :=
  Bot.settings w = Bot.settings w0
  /\ exists old more,
       MessagesDb.rows (Bot.messages w) = (old ++ more)%list
       /\ Forall2 outcome_only (MessagesDb.rows (Bot.messages w0)) old.

(** Every character of the text is white space (the empty text too). *)
Definition white_space_only (s : string) : Prop :=
  Forall (fun c => Str.is_space c = true) (list_ascii_of_string s).

(** The settings passed the checks of the command handlers. *)
Definition valid (us : SettingsDb.UserSettings) : Prop :=
  SettingsDb.model us ∈ Commands.valid_models
  /\ SettingsDb.duration us ∈ Commands.valid_durations
  /\ SettingsDb.resolution us ∈ Commands.valid_resolutions.

(** Every user's settings, stored or defaulted, passed the checks. *)
Definition settings_valid (db : SettingsDb.Table) : Prop :=
  forall uid, valid (SettingsDb.get_user_settings db uid).

(** The answer is the warning of lines 232-237. *)
Definition is_warning (r : Commands.Reply) : Prop :=
  exists model resolution, r = Commands.ResolutionWarning model resolution.

(** * Properties *)

(** ** Settings store *)

Section SettingsStore.

Import SettingsDb.

Lemma get_user_settings_absent (db : Table) (uid : Z) :
  db !! uid = None -> get_user_settings db uid = defaults uid.
Proof. intros H. unfold get_user_settings. now rewrite H. Qed.

Lemma get_user_settings_present (db : Table) (uid : Z) (row : Stored) :
  db !! uid = Some row ->
  get_user_settings db uid =
  {| user_id := uid; model := s_model row; duration := s_duration row;
     resolution := s_resolution row |}.
Proof. intros H. unfold get_user_settings. now rewrite H. Qed.

Lemma get_user_settings_user (db : Table) (uid : Z) :
  user_id (get_user_settings db uid) = uid.
Proof. unfold get_user_settings. now destruct (db !! uid). Qed.

(** A [set] for one user leaves every other user's row alone. *)
Lemma set_user_settings_frame (db : Table) (uid other : Z)
  (m : option string) (d : option Z) (r : option string) :
  other <> uid ->
  get_user_settings (fst (set_user_settings db uid m d r)) other =
  get_user_settings db other.
Proof.
  intros Hne. unfold set_user_settings, get_user_settings. simpl.
  rewrite lookup_insert_ne by congruence. reflexivity.
Qed.

(** C7. [set_user_settings] merges: a supplied field takes the given value,
    a field not supplied keeps the value [get_user_settings] reported before
    the call (the persisted one, or the default); the merged triple is what
    the table then holds for the user, it is the record returned, and a
    following [get_user_settings] for that user returns it again. *)
Theorem set_user_settings_merges (db : Table) (uid : Z)
  (m : option string) (d : option Z) (r : option string) :
  let before := get_user_settings db uid in
  let db' := fst (set_user_settings db uid m d r) in
  let returned := snd (set_user_settings db uid m d r) in
  returned = {| user_id := uid;
                model := default (model before) m;
                duration := default (duration before) d;
                resolution := default (resolution before) r |}
  /\ db' !! uid = Some {| s_model := model returned;
                         s_duration := duration returned;
                         s_resolution := resolution returned |}
  /\ get_user_settings db' uid = returned.
Proof.
  intros before db' returned.
  assert (Hret : returned = {| user_id := uid;
                model := default (model before) m;
                duration := default (duration before) d;
                resolution := default (resolution before) r |}).
  { subst returned before. unfold set_user_settings. simpl.
    pose proof (get_user_settings_user db uid) as Hu.
    destruct (get_user_settings db uid) as [u0 m0 d0 r0]; simpl in *; subst u0.
    destruct m, d, r; reflexivity. }
  assert (Hrow : db' !! uid = Some {| s_model := model returned;
                         s_duration := duration returned;
                         s_resolution := resolution returned |}).
  { subst db' returned. unfold set_user_settings. simpl.
    apply lookup_insert_eq. }
  split; [exact Hret|]. split; [exact Hrow|].
  rewrite (get_user_settings_present _ _ _ Hrow).
  rewrite Hret. reflexivity.
Qed.

(** C8. Whatever [set] calls came before, [reset_user_settings] followed by
    [get_user_settings] yields the static default triple, which is what
    [get_user_settings] yields on a table nobody ever wrote to; the record
    [reset_user_settings] itself returns is that triple too. *)
Theorem reset_then_get_is_default (calls : list SetCall) (db : Table) (uid : Z) :
  let db1 := after_sets calls db in
  let db2 := fst (reset_user_settings db1 uid) in
  get_user_settings db2 uid = defaults uid
  /\ get_user_settings db2 uid = get_user_settings ∅ uid
  /\ snd (reset_user_settings db1 uid) = defaults uid.
Proof.
  intros db1 db2.
  assert (H : db2 !! uid = None) by (subst db2; simpl; apply lookup_delete_eq).
  repeat split.
  - now apply get_user_settings_absent.
  - rewrite (get_user_settings_absent _ _ H).
    symmetry. apply get_user_settings_absent, lookup_empty.
  - unfold reset_user_settings. simpl.
    apply get_user_settings_absent, lookup_delete_eq.
Qed.

End SettingsStore.

(** ** Cost *)

Section Cost.

Lemma append_nil_l (s : string) : "" +:+ s = s.
Proof. reflexivity. Qed.

Lemma append_cons (c : ascii) (a b : string) :
  String c a +:+ b = String c (a +:+ b).
Proof. reflexivity. Qed.

Lemma startswith_spec (p s : string) :
  Str.startswith p s = true <-> exists post, s = p +:+ post.
Proof.
  revert s. induction p as [|a p IH]; intros s; simpl.
  - split; [intros _; now exists s | reflexivity].
  - destruct s as [|b s]; simpl.
    + split; [discriminate | intros [post H]; discriminate].
    + destruct (Ascii.eqb_spec a b) as [->|Hne].
      * rewrite IH. split; intros [post H]; exists post;
          rewrite append_cons in *; congruence.
      * split; [discriminate|].
        intros [post H]. rewrite append_cons in H. congruence.
Qed.

Lemma contains_spec (p s : string) :
  Str.contains p s = true <-> exists pre post, s = pre +:+ p +:+ post.
Proof.
  split.
  - induction s as [|c s IH]; simpl.
    + destruct (Str.startswith p "") eqn:E; [|discriminate].
      intros _. apply startswith_spec in E as [post E].
      now exists "", post.
    + destruct (Str.startswith p (String c s)) eqn:E.
      * intros _. apply startswith_spec in E as [post E].
        now exists "", post.
      * intros H. destruct (IH H) as (pre & post & ->).
        now exists (String c pre), post.
  - intros (pre & post & ->). induction pre as [|c pre IH].
    + rewrite append_nil_l.
      assert (E : Str.startswith p (p +:+ post) = true)
        by (apply startswith_spec; now exists post).
      destruct (p +:+ post); simpl in *; now rewrite E.
    + rewrite append_cons. simpl. now destruct (Str.startswith p _).
Qed.

Lemma lower_app (a b : string) :
  Str.lower (a +:+ b) = Str.lower a +:+ Str.lower b.
Proof.
  induction a as [|c a IH]; [reflexivity|].
  rewrite append_cons. simpl. now rewrite IH.
Qed.

Lemma lower_app_inv (m a b : string) :
  Str.lower m = a +:+ b ->
  exists a' b', m = a' +:+ b' /\ Str.lower a' = a /\ Str.lower b' = b.
Proof.
  revert m. induction a as [|c a IH]; intros m H.
  - now exists "", m.
  - rewrite append_cons in H.
    destruct m as [|c' m]; simpl in H; [discriminate|].
    injection H as Hc Hm. destruct (IH _ Hm) as (a' & b' & -> & Ha & Hb).
    exists (String c' a'), b'. simpl. now rewrite Ha, Hc.
Qed.

Lemma all_from_spec (fuel : nat) (k : N) (P : N -> bool) :
  all_from fuel k P = true ->
  forall j : N, (k <= j < k + N.of_nat fuel)%N -> P j = true.
Proof.
  revert k. induction fuel as [|fuel IH]; intros k H j Hj.
  - lia.
  - simpl in H. apply andb_prop in H as [Hk Hrest].
    destruct (N.eq_dec j k) as [->|Hne]; [exact Hk|].
    apply (IH _ Hrest). lia.
Qed.

(** Which characters lower to a given letter, settled by trying all 256. *)
Lemma lower_char_iff (l u c : ascii) :
  all_from 256 0 (lowers_ok l u) = true ->
  Str.lower_char c = l <-> (c = l \/ c = u).
Proof.
  intros H.
  pose proof (all_from_spec 256 0 _ H (N_of_ascii c)) as Hc.
  pose proof (N_ascii_bounded c).
  unfold lowers_ok in Hc. rewrite ascii_N_embedding in Hc.
  specialize (Hc ltac:(lia)). apply Bool.eqb_prop in Hc.
  rewrite <- Ascii.eqb_eq, Hc, Bool.orb_true_iff, !Ascii.eqb_eq. reflexivity.
Qed.

Lemma lower_is_fast (w : string) :
  Str.lower w = "fast" <-> fast_in_any_case w.
Proof.
  pose proof (fun c => lower_char_iff "f" "F" c eq_refl) as Hf.
  pose proof (fun c => lower_char_iff "a" "A" c eq_refl) as Ha.
  pose proof (fun c => lower_char_iff "s" "S" c eq_refl) as Hs.
  pose proof (fun c => lower_char_iff "t" "T" c eq_refl) as Ht.
  split.
  - destruct w as [|c1 [|c2 [|c3 [|c4 [|c5 w]]]]]; simpl; intros H;
      try discriminate H.
    injection H as H1 H2 H3 H4.
    exists c1, c2, c3, c4.
    rewrite <- Hf, <- Ha, <- Hs, <- Ht. now repeat split.
  - intros (c1 & c2 & c3 & c4 & -> & H1 & H2 & H3 & H4). simpl.
    apply Hf in H1. apply Ha in H2. apply Hs in H3. apply Ht in H4.
    now rewrite H1, H2, H3, H4.
Qed.

(** The test of line 29 is the case-insensitive substring test. *)
Lemma is_fast_spec (m : string) :
  Str.contains "fast" (Str.lower m) = true <-> mentions_fast m.
Proof.
  rewrite contains_spec. unfold mentions_fast. split.
  - intros (pre & post & H).
    apply lower_app_inv in H as (pre' & rest & -> & Hpre & H).
    apply lower_app_inv in H as (w & post' & -> & Hw & Hpost).
    exists pre', w, post'. split; [reflexivity | now apply lower_is_fast].
  - intros (pre & w & post & -> & Hw). apply lower_is_fast in Hw.
    exists (Str.lower pre), (Str.lower post).
    now rewrite !lower_app, Hw.
Qed.

(** C3. The cost is the rate times the duration, in the floats of the
    code: the rate is the float 0.15 when the model name contains "fast" in
    any mix of cases and the float 0.40 otherwise, and the product is the
    float product with the duration, so the pair (model, duration) fixes
    it. At the durations 4, 6 and 8 there is a cost, and it is within
    10^-15 of the decimal product. The default model (whose name contains
    "fast") at duration 8 costs what the literal 1.20 denotes; the costs at
    the three durations are, as Python prints them, 0.6, 0.8999999999999999
    and 1.2 for a fast model and 1.6, 2.4000000000000004 and 3.2 for
    another. *)
Theorem calculate_cost_by_rate :
  (forall (m : string) (d : Z),
      (mentions_fast m /\ calculate_cost m d = F64.times (F64.lit 0.15) d)
      \/ (~ mentions_fast m /\ calculate_cost m d = F64.times (F64.lit 0.40) d))
  /\ (forall (m : string) (d : Z),
        d = 4 \/ d = 6 \/ d = 8 ->
        exists cost,
          calculate_cost m d = inr cost
          /\ ((mentions_fast m
               /\ (Qabs (F64.value cost - 0.15 * inject_Z d)
                   <= 1 # 1000000000000000)%Q)
              \/ (~ mentions_fast m
                  /\ (Qabs (F64.value cost - 0.40 * inject_Z d)
                      <= 1 # 1000000000000000)%Q)))
  /\ calculate_cost "veo-3.1-fast-generate-001" 8 = inr (F64.lit 1.20)
  /\ calculate_cost "veo-3.1-fast-generate-001" 4 = inr (F64.lit 0.6)
  /\ calculate_cost "veo-3.1-fast-generate-001" 6
     = inr (F64.lit 0.8999999999999999)
  /\ calculate_cost "veo-3.1-generate-001" 4 = inr (F64.lit 1.6)
  /\ calculate_cost "veo-3.1-generate-001" 6
     = inr (F64.lit 2.4000000000000004)
  /\ calculate_cost "veo-3.1-generate-001" 8 = inr (F64.lit 3.2).
Proof.
  assert (Hrate : forall m d,
             (mentions_fast m
              /\ calculate_cost m d = F64.times (F64.lit 0.15) d)
             \/ (~ mentions_fast m
                 /\ calculate_cost m d = F64.times (F64.lit 0.40) d)).
  { intros m d. unfold calculate_cost.
    destruct (Str.contains "fast" (Str.lower m)) eqn:E.
    - left. split; [now apply is_fast_spec | reflexivity].
    - right. split; [|reflexivity].
      intros H. apply is_fast_spec in H. congruence. }
  split; [exact Hrate|].
  split; [|repeat split; vm_compute; reflexivity].
  intros m d Hd.
  destruct (Hrate m d) as [[Hm E]|[Hm E]]; rewrite E;
    destruct Hd as [Hd|[Hd|Hd]]; subst d; eexists;
    (split; [vm_compute; reflexivity|]);
    [left|left|left|right|right|right];
    (split; [exact Hm|]); apply Qle_bool_iff; vm_compute; reflexivity.
Qed.

End Cost.

(** ** Fetching the video *)

Section Fetch.

Import Veo.

Variable gcs : Gcs.

Lemma download_video_gcs (v : Video) (uri : string) :
  v !! "gcsUri" = Some uri -> download_video gcs v = download_from_gcs gcs uri.
Proof. intros H. unfold download_video. now rewrite H. Qed.

Lemma download_video_inline (v : Video) (payload : string) :
  v !! "gcsUri" = None -> v !! "bytesBase64Encoded" = Some payload ->
  download_video gcs v = Base64.b64decode payload.
Proof. intros H1 H2. unfold download_video. now rewrite H1, H2. Qed.

Lemma download_video_neither (v : Video) :
  v !! "gcsUri" = None -> v !! "bytesBase64Encoded" = None ->
  download_video gcs v = inl unsupported_encoding.
Proof. intros H1 H2. unfold download_video. now rewrite H1, H2. Qed.

Lemma download_from_gcs_supported (uri : string) :
  download_from_gcs gcs uri <> inl unsupported_encoding.
Proof.
  unfold download_from_gcs, unsupported_encoding.
  destruct (Str.split_once _ _) as [[b p]|]; [|intros H; discriminate H].
  destruct (gcs b p); intros H; discriminate H.
Qed.

Lemma a2b_loop_supported (s : string) (q : nat) (l : N) (pads : nat)
  (out : list Byte.byte) :
  Base64.a2b_loop s q l pads out <> inl unsupported_encoding.
Proof.
  unfold unsupported_encoding.
  revert q l pads out. induction s as [|c s IH]; intros q l pads out;
    cbn [Base64.a2b_loop].
  - destruct q as [|[|q]]; congruence.
  - destruct (Ascii.eqb c "=").
    + destruct (2 <=? q)%nat; [destruct (4 <=? q + S pads)%nat|];
        try apply IH. intros H; discriminate H.
    + destruct (Base64.a2b c); [|apply IH].
      destruct q as [|[|[|q]]]; apply IH.
Qed.

Lemma b64decode_supported (payload : string) :
  Base64.b64decode payload <> inl unsupported_encoding.
Proof.
  unfold Base64.b64decode. destruct (Base64.is_ascii payload).
  - apply a2b_loop_supported.
  - unfold unsupported_encoding. intros H; discriminate H.
Qed.

(** The error of line 85 is raised exactly when neither key is present. *)
Lemma unsupported_encoding_iff (v : Video) :
  download_video gcs v = inl unsupported_encoding
  <-> (v !! "gcsUri" = None /\ v !! "bytesBase64Encoded" = None).
Proof.
  split.
  - unfold download_video.
    destruct (v !! "gcsUri") as [uri|] eqn:E1.
    + intros H. now apply download_from_gcs_supported in H.
    + destruct (v !! "bytesBase64Encoded") as [payload|] eqn:E2.
      * intros H. now apply b64decode_supported in H.
      * intros _. now split.
  - intros [H1 H2]. now apply download_video_neither.
Qed.

Lemma contains_cons_false (p : string) (c : ascii) (s : string) :
  Str.contains p (String c s) = false ->
  Str.startswith p (String c s) = false /\ Str.contains p s = false.
Proof.
  cbn [Str.contains]. destruct (Str.startswith p (String c s)); [discriminate|].
  now split.
Qed.

(** Removing a text that does not occur changes nothing. *)
Lemma remove_all_absent (old s : string) :
  Str.contains old s = false -> Str.remove_all old s = s.
Proof.
  unfold Str.remove_all. induction s as [|c s IH]; intros H; [reflexivity|].
  apply contains_cons_false in H as [Hstart Hrest].
  cbn [Str.remove_from]. rewrite Hstart. now rewrite (IH Hrest).
Qed.

Lemma split_once_first (a : string) (b : string) :
  Str.contains "/" a = false ->
  Str.split_once "/" (a +:+ "/" +:+ b) = Some (a, b).
Proof.
  induction a as [|c a IH]; intros H; [reflexivity|].
  apply contains_cons_false in H as [Hstart Hrest].
  rewrite append_cons. cbn [Str.split_once].
  cbn [Str.startswith] in Hstart.
  destruct (Ascii.eqb_spec "/" c) as [<-|Hne]; [discriminate Hstart|].
  destruct (Ascii.eqb_spec c "/") as [->|_]; [contradiction|].
  now rewrite (IH Hrest).
Qed.

Lemma split_once_none (s : string) :
  Str.contains "/" s = false -> Str.split_once "/" s = None.
Proof.
  induction s as [|c s IH]; intros H; [reflexivity|].
  apply contains_cons_false in H as [Hstart Hrest].
  cbn [Str.split_once]. cbn [Str.startswith] in Hstart.
  destruct (Ascii.eqb_spec "/" c) as [<-|Hne]; [discriminate Hstart|].
  destruct (Ascii.eqb_spec c "/") as [->|_]; [contradiction|].
  now rewrite (IH Hrest).
Qed.

(** The object-storage branch on a URI "gs://bucket/path". *)
Lemma download_from_gcs_parsed (bucket path : string) :
  Str.contains "/" bucket = false ->
  Str.contains "gs://" (bucket +:+ "/" +:+ path) = false ->
  download_from_gcs gcs ("gs://" +:+ bucket +:+ "/" +:+ path)
  = match gcs bucket path with
    | inl msg => inl (External msg)
    | inr data => inr data
    end.
Proof.
  intros Hbucket Hrest. unfold download_from_gcs.
  change (Str.remove_all "gs://" ("gs://" +:+ bucket +:+ "/" +:+ path))
    with (Str.remove_all "gs://" (bucket +:+ "/" +:+ path)).
  rewrite (remove_all_absent _ _ Hrest).
  now rewrite (split_once_first _ _ Hbucket).
Qed.

(** C9. When the descriptor has both keys, [download_video] goes to object
    storage with what the value under "gcsUri" names and never decodes the
    inline payload. For a URI "gs://bucket/path" (the bucket without a
    slash, "gs://" not occurring again) the result is what object storage
    gives for that bucket and that path, the bytes or the error it raises;
    for a value without a slash once "gs://" is removed it is the
    [ValueError] of the unpacking, object storage not being asked. In every
    case, putting any other payload under "bytesBase64Encoded" does not
    change the result. *)
Theorem gcs_uri_has_priority (v : Video) (uri payload : string) :
  v !! "gcsUri" = Some uri ->
  v !! "bytesBase64Encoded" = Some payload ->
  (forall bucket path : string,
      uri = "gs://" +:+ bucket +:+ "/" +:+ path ->
      Str.contains "/" bucket = false ->
      Str.contains "gs://" (bucket +:+ "/" +:+ path) = false ->
      download_video gcs v
      = match gcs bucket path with
        | inl msg => inl (External msg)
        | inr data => inr data
        end)
  /\ (Str.contains "/" (Str.remove_all "gs://" uri) = false ->
      download_video gcs v
      = inl (ValueError "not enough values to unpack (expected 2, got 1)"))
  /\ (forall payload' : string,
        download_video gcs (<["bytesBase64Encoded" := payload']> v)
        = download_video gcs v).
Proof.
  intros Huri _.
  rewrite (download_video_gcs v uri Huri). repeat split.
  - intros bucket path -> Hbucket Hrest.
    now apply download_from_gcs_parsed.
  - intros Hnone. unfold download_from_gcs.
    now rewrite (split_once_none _ Hnone).
  - intros payload'.
    apply download_video_gcs. now rewrite lookup_insert_ne.
Qed.

End Fetch.

(** A descriptor with both keys, on an object storage that hands back the
    names it was asked for: the bytes are those of bucket "clips" and path
    "2024/a.mp4", not the two bytes of the inline payload. *)
Lemma gcs_uri_has_priority_witness :
  let gcs : Veo.Gcs :=
    fun bucket path => inr (list_byte_of_string (bucket +:+ "|" +:+ path)) in
  let v : Veo.Video :=
    <["gcsUri" := "gs://clips/2024/a.mp4"]> {[ "bytesBase64Encoded" := "aGk=" ]} in
  Veo.download_video gcs v = inr (list_byte_of_string "clips|2024/a.mp4")
  /\ Veo.download_video gcs (delete "gcsUri" v) = inr [Byte.x68; Byte.x69].
Proof.
  intros gcs v. split; [|reflexivity].
  destruct (gcs_uri_has_priority gcs v "gs://clips/2024/a.mp4" "aGk="
              eq_refl eq_refl) as [H _].
  exact (H "clips" "2024/a.mp4" eq_refl eq_refl eq_refl).
Defined.

(** ** Polling *)

Section Poll.

Import Veo.

Variable self : VeoClient.
Variable remote : Remote.

Variable operation_name model : string.
Variable max_wait_time : Z.

Let req : HttpReq := status_request self model operation_name.
Let endpoint : string := model_endpoint self model "fetchPredictOperation".

(** Case analysis on the loop condition of line 59. *)
Ltac loop_condition n start_time :=
  destruct (Z.ltb_spec (clock n - start_time) (1000 * max_wait_time));
  try lia.

Lemma issue_time_succ (n0 : nat) (t0 : Z) (i : nat) :
  issue_time remote req n0 t0 (S i)
  = issue_time remote req n0 t0 i
    + Z.of_N (latency (remote (n0 + i)%nat req)) + 5000.
Proof.
  revert n0 t0. induction i as [|i IH]; intros n0 t0.
  - simpl. now rewrite Nat.add_0_r.
  - change (issue_time remote req n0 t0 (S (S i)))
      with (issue_time remote req (S n0)
              (t0 + Z.of_N (latency (remote n0 req)) + 5000) (S i)).
    rewrite IH. simpl. now rewrite Nat.add_succ_r.
Qed.

Lemma issue_time_lower (n0 : nat) (t0 : Z) (i : nat) :
  t0 + 5000 * Z.of_nat i <= issue_time remote req n0 t0 i.
Proof.
  revert n0 t0. induction i as [|i IH]; intros n0 t0; simpl; [lia|].
  specialize (IH (S n0) (t0 + Z.of_N (latency (remote n0 req)) + 5000)). lia.
Qed.

Lemma issue_time_mono (n0 : nat) (t0 : Z) (i j : nat) :
  (i <= j)%nat -> issue_time remote req n0 t0 i <= issue_time remote req n0 t0 j.
Proof.
  induction 1 as [|j _ IH]; [lia|]. rewrite issue_time_succ. lia.
Qed.

Lemma status_calls_succ (n0 : nat) (t0 : Z) (m : nat) :
  status_calls remote req n0 t0 (S m)
  = (t0, req) :: status_calls remote req (S n0)
                   (t0 + Z.of_N (latency (remote n0 req)) + 5000) m.
Proof.
  unfold status_calls. simpl. f_equal.
  rewrite <- seq_shift, map_map. reflexivity.
Qed.

(** One turn of the loop on a reply that is not done. *)
Lemma poll_loop_pending (fuel : nat) (start_time : Z) (n : Net) :
  clock n - start_time < 1000 * max_wait_time ->
  reports_pending (remote (length (calls n)) req) ->
  poll_loop remote (S fuel) endpoint operation_name start_time max_wait_time n
  = poll_loop remote fuel endpoint operation_name start_time max_wait_time
      {| clock := clock n + Z.of_N (latency (remote (length (calls n)) req)) + 5000;
         calls := calls n ++ [(clock n, req)] |}.
Proof.
  intros Hlt (json & Hout & Hdone). cbn [poll_loop].
  loop_condition n start_time.
  unfold _request, req, endpoint, status_request in *. rewrite Hout, Hdone.
  unfold sleep. cbn [clock calls]. f_equal; f_equal; lia.
Qed.

(** The loop through [k] replies that are not done, all asked for within
    the budget. *)
Lemma poll_loop_pending_run (k : nat) :
  forall (fuel : nat) (start_time : Z) (n : Net),
    (forall i, (i < k)%nat ->
               issue_time remote req (length (calls n)) (clock n) i - start_time
               < 1000 * max_wait_time) ->
    (forall i, (i < k)%nat ->
               reports_pending (remote (length (calls n) + i)%nat req)) ->
    poll_loop remote (k + fuel) endpoint operation_name start_time max_wait_time n
    = poll_loop remote fuel endpoint operation_name start_time max_wait_time
        {| clock := issue_time remote req (length (calls n)) (clock n) k;
           calls := calls n ++ status_calls remote req (length (calls n)) (clock n) k |}.
Proof.
  induction k as [|k IH]; intros fuel start_time n Hin Hpend.
  - destruct n as [c l]. unfold status_calls. simpl. now rewrite app_nil_r.
  - change (S k + fuel)%nat with (S (k + fuel)).
    rewrite poll_loop_pending.
    + rewrite IH.
      * cbn [clock calls]. rewrite length_app, Nat.add_1_r.
        rewrite status_calls_succ, <- app_assoc. reflexivity.
      * intros i Hi. cbn [clock calls]. rewrite length_app, Nat.add_1_r.
        apply (Hin (S i)). lia.
      * intros i Hi. cbn [clock calls]. rewrite length_app, Nat.add_1_r.
        replace (S (length (calls n)) + i)%nat with (length (calls n) + S i)%nat by lia.
        apply Hpend. lia.
    + apply (Hin O). lia.
    + specialize (Hpend O ltac:(lia)). now rewrite Nat.add_0_r in Hpend.
Qed.

(** One turn of the loop on a reply that is done, without error. *)
Lemma poll_loop_video (fuel : nat) (start_time : Z) (n : Net) (v : Video) :
  clock n - start_time < 1000 * max_wait_time ->
  reports_video (remote (length (calls n)) req) v ->
  exists rai,
    poll_loop remote (S fuel) endpoint operation_name start_time max_wait_time n
    = Some ({| clock := clock n + Z.of_N (latency (remote (length (calls n)) req));
               calls := calls n ++ [(clock n, req)] |},
            {| p_done := true; p_error := None; p_videos := [v]; p_rai := Some rai |}).
Proof.
  intros Hlt (json & resp & Hout & Hdone & Herr & Hresp & Hvid). cbn [poll_loop].
  loop_condition n start_time.
  unfold _request, req, endpoint, status_request in *.
  rewrite Hout, Hdone, Herr, Hresp. cbv zeta. cbn [default from_option id].
  rewrite Hvid. cbn [default from_option id]. eauto.
Qed.

(** The loop when every reply asked for within the budget is not done: it
    ends by the clock, after some number of status calls. *)
Lemma poll_loop_times_out (fuel : nat) :
  forall (start_time : Z) (n : Net),
    1000 * max_wait_time - (clock n - start_time) <= 5000 * Z.of_nat fuel ->
    (forall i,
        issue_time remote req (length (calls n)) (clock n) i - start_time
        < 1000 * max_wait_time ->
        reports_pending (remote (length (calls n) + i)%nat req)) ->
    exists m,
      poll_loop remote (S fuel) endpoint operation_name start_time max_wait_time n
      = Some ({| clock := issue_time remote req (length (calls n)) (clock n) m;
                 calls := calls n ++ status_calls remote req (length (calls n)) (clock n) m |},
              timed_out).
Proof.
  induction fuel as [|fuel IH]; intros start_time n Hfuel Hpend.
  - exists O. cbn [poll_loop].
    loop_condition n start_time.
    destruct n as [c l]. unfold status_calls. simpl. now rewrite app_nil_r.
  - destruct (Z.lt_ge_cases (clock n - start_time) (1000 * max_wait_time))
      as [Hlt|Hge].
    + rewrite poll_loop_pending; [|exact Hlt|].
      * edestruct (IH start_time) as [m Hm]; [| |exists (S m); rewrite Hm].
        -- cbn [clock]. lia.
        -- intros i Hi. cbn [clock calls] in *.
           rewrite length_app, Nat.add_1_r in *.
           replace (S (length (calls n)) + i)%nat
             with (length (calls n) + S i)%nat by lia.
           apply Hpend. exact Hi.
        -- cbn [clock calls]. rewrite length_app, Nat.add_1_r.
           rewrite status_calls_succ, <- app_assoc. reflexivity.
      * specialize (Hpend O Hlt). now rewrite Nat.add_0_r in Hpend.
    + exists O. cbn [poll_loop].
      loop_condition n start_time.
      destruct n as [c l]. unfold status_calls. simpl. now rewrite app_nil_r.
Qed.

(** The loop always ends on the fuel [poll_operation] gives it. *)
Lemma poll_loop_total_from (fuel : nat) :
  forall (start_time : Z) (n : Net),
    1000 * max_wait_time - (clock n - start_time) <= 5000 * Z.of_nat fuel ->
    is_Some (poll_loop remote (S fuel) endpoint operation_name
               start_time max_wait_time n).
Proof.
  induction fuel as [|fuel IH]; intros start_time n Hfuel; cbn [poll_loop].
  - destruct (Z.ltb_spec (clock n - start_time) (1000 * max_wait_time)); [lia|].
    eauto.
  - destruct (Z.ltb_spec (clock n - start_time) (1000 * max_wait_time)); [|eauto].
    destruct (_request remote endpoint (FetchBody operation_name) n)
      as [n' [e|result]] eqn:E; [eauto|].
    destruct (r_done result); [destruct (r_error result); eauto|].
    apply IH. unfold _request in E.
    destruct (outcome _); inversion E; subst. unfold sleep. cbn [clock]. lia.
Qed.

Lemma poll_fuel_enough (n : Net) :
  1000 * max_wait_time - (clock n - clock n)
  <= 5000 * Z.of_nat (S (Z.to_nat (max_wait_time / 5))).
Proof.
  destruct (Z.le_gt_cases 0 max_wait_time) as [H|H].
  - pose proof (Z.div_mod max_wait_time 5 ltac:(lia)).
    pose proof (Z.mod_pos_bound max_wait_time 5 ltac:(lia)).
    assert (0 <= max_wait_time / 5) by (apply Z.div_pos; lia). lia.
  - lia.
Qed.

(** [poll_operation] returns: the loop never runs out of fuel. *)
Lemma poll_loop_total (n : Net) :
  poll_loop remote (poll_fuel max_wait_time) endpoint operation_name
    (clock n) max_wait_time n
  = Some (poll_operation self remote operation_name model max_wait_time n).
Proof.
  unfold poll_operation. fold endpoint.
  destruct (poll_loop_total_from (S (Z.to_nat (max_wait_time / 5))) (clock n) n
              (poll_fuel_enough n)) as [r Hr].
  unfold poll_fuel. now rewrite Hr.
Qed.

(** C1. Let a poll start at time [clock n] with [length (calls n)] calls
    already made. (a) If the remote answers the first [k] status calls with
    done = false and the next with done = true, no error and the video list
    [[v]], and that last call is issued before the budget is used up, then
    the result is done, without error, with video list [[v]], and the poll
    has added exactly [k + 1] status calls to the log, each issued five
    seconds plus the latency of the call before it after that call. (b) If
    the remote answers done = false to every status call issued within the
    budget, the result is not done, carries an error containing "timed out"
    and no video, and all the poll has added to the log are status calls. *)
Theorem poll_operation_protocol (n : Net) :
  let n0 := length (calls n) in
  let result := poll_operation self remote operation_name model max_wait_time n in
  (forall (k : nat) (v : Video),
      (forall i, (i < k)%nat -> reports_pending (remote (n0 + i)%nat req)) ->
      reports_video (remote (n0 + k)%nat req) v ->
      issue_time remote req n0 (clock n) k - clock n < 1000 * max_wait_time ->
      p_done (snd result) = true
      /\ p_error (snd result) = None
      /\ p_videos (snd result) = [v]
      /\ calls (fst result)
         = (calls n ++ status_calls remote req n0 (clock n) (S k))%list
      /\ length (status_calls remote req n0 (clock n) (S k)) = S k
      /\ forall i, (i < k)%nat ->
           issue_time remote req n0 (clock n) (S i)
           - issue_time remote req n0 (clock n) i
           = 5000 + Z.of_N (latency (remote (n0 + i)%nat req)))
  /\ ((forall i,
          issue_time remote req n0 (clock n) i - clock n < 1000 * max_wait_time ->
          reports_pending (remote (n0 + i)%nat req)) ->
      snd result = {| p_done := false; p_error := Some "Operation timed out";
                      p_videos := []; p_rai := None |}
      /\ Str.contains "timed out" "Operation timed out" = true
      /\ exists m, calls (fst result)
                   = (calls n ++ status_calls remote req n0 (clock n) m)%list).
Proof.
  intros n0 result.
  pose proof (poll_loop_total n) as Htotal. fold result in Htotal.
  split.
  - intros k v Hpend Hvideo Hbudget.
    pose proof (issue_time_lower n0 (clock n) k) as Hlow.
    assert (Hk : (S k <= poll_fuel max_wait_time)%nat).
    { unfold poll_fuel.
      destruct (Z.le_gt_cases 0 max_wait_time) as [H|H]; [|lia].
      pose proof (Z.div_mod max_wait_time 5 ltac:(lia)).
      pose proof (Z.mod_pos_bound max_wait_time 5 ltac:(lia)).
      assert (0 <= max_wait_time / 5) by (apply Z.div_pos; lia). lia. }
    replace (poll_fuel max_wait_time)
      with (k + S (poll_fuel max_wait_time - S k))%nat in Htotal by lia.
    rewrite poll_loop_pending_run in Htotal; fold n0.
    + edestruct (poll_loop_video (poll_fuel max_wait_time - S k) (clock n)
                   {| clock := issue_time remote req n0 (clock n) k;
                      calls := calls n ++ status_calls remote req n0 (clock n) k |} v)
        as [rai Hlast].
      * exact Hbudget.
      * cbn [calls]. unfold status_calls at 1.
        rewrite length_app, length_map, length_seq. exact Hvideo.
      * fold n0 in Htotal. rewrite Hlast in Htotal.
        injection Htotal as Hres. rewrite <- Hres. cbn [fst snd calls clock].
        repeat split.
        -- rewrite <- app_assoc. f_equal.
           unfold status_calls. rewrite (seq_S k), map_app. reflexivity.
        -- unfold status_calls. now rewrite length_map, length_seq.
        -- intros i _. rewrite issue_time_succ. lia.
    + intros i Hi.
      pose proof (issue_time_mono n0 (clock n) i k ltac:(lia)). lia.
    + exact Hpend.
  - intros Hpend.
    destruct (poll_loop_times_out (S (Z.to_nat (max_wait_time / 5))) (clock n) n
                (poll_fuel_enough n) Hpend) as [m Hm].
    unfold poll_fuel in Htotal. rewrite Hm in Htotal.
    injection Htotal as Hres. rewrite <- Hres. cbn [fst snd calls].
    repeat split. now exists m.
Qed.

(** C10. With a budget of zero seconds or less the loop condition fails at
    once: no call is issued (clock and call log are untouched) and the
    result is the timed-out one. *)
Theorem poll_without_budget (n : Net) :
  max_wait_time <= 0 ->
  poll_operation self remote operation_name model max_wait_time n
  = (n, {| p_done := false; p_error := Some "Operation timed out";
           p_videos := []; p_rai := None |}).
Proof.
  intros H. unfold poll_operation, poll_fuel. simpl.
  destruct (Z.ltb_spec (clock n - clock n) (1000 * max_wait_time)) as [Hlt|_];
    [lia | reflexivity].
Qed.

End Poll.

Lemma poll_without_budget_witness :
  let n := {| Veo.clock := 42; Veo.calls := [] |} in
  Veo.poll_operation {| Veo.project_id := "demo"; Veo.location := "us-central1" |}
    (fun _ _ => {| Veo.latency := 0; Veo.outcome := inl "unreachable" |})
    "operations/1" "veo-3.1-fast-generate-001" 0 n
  = (n, Veo.timed_out).
Proof.
  intros n. apply (poll_without_budget _ _ _ _ 0 n). lia.
Defined.


(** ** Base64 *)

Section Base64Roundtrip.

Import Base64.

Lemma to_N_lt (x : Byte.byte) : (Byte.to_N x < 256)%N.
Proof. pose proof (Byte.to_N_bounded x). lia. Qed.

Lemma byte_of_to_N (x : Byte.byte) : byte_of_N (Byte.to_N x) = x.
Proof.
  unfold byte_of_N. rewrite N.mod_small by apply to_N_lt.
  now rewrite Byte.of_to_N.
Qed.

Lemma head_facts (x y : N) :
  (x < 256)%N -> (y < 256)%N ->
  (N.shiftr x 2 < 64)%N /\ (sextet2 x y < 64)%N
  /\ N.lor (N.shiftl (N.shiftr x 2) 2) (N.shiftr (sextet2 x y) 4) = x
  /\ N.land (sextet2 x y) 15 = N.shiftr y 4.
Proof.
  intros Hx Hy.
  assert (H : all_from 256 0 (fun x => all_from 256 0 (head_ok x)) = true)
    by (vm_compute; reflexivity).
  pose proof (all_from_spec 256 0 _
                (all_from_spec 256 0 _ H x ltac:(lia)) y ltac:(lia)) as Hxy.
  unfold head_ok in Hxy.
  repeat (apply andb_prop in Hxy as [Hxy ?]).
  repeat split;
    first [now apply N.ltb_lt | now apply N.eqb_eq].
Qed.

Lemma tail_facts (y z : N) :
  (y < 256)%N -> (z < 256)%N ->
  (sextet3 y z < 64)%N /\ (N.land z 63 < 64)%N
  /\ N.lor (N.shiftl (N.shiftr y 4) 4) (N.shiftr (sextet3 y z) 2) = y
  /\ N.land (sextet3 y z) 3 = N.shiftr z 6
  /\ N.lor (N.shiftl (N.shiftr z 6) 6) (N.land z 63) = z.
Proof.
  intros Hy Hz.
  assert (H : all_from 256 0 (fun y => all_from 256 0 (tail_ok y)) = true)
    by (vm_compute; reflexivity).
  pose proof (all_from_spec 256 0 _
                (all_from_spec 256 0 _ H y ltac:(lia)) z ltac:(lia)) as Hyz.
  unfold tail_ok in Hyz.
  repeat (apply andb_prop in Hyz as [Hyz ?]).
  repeat split;
    first [now apply N.ltb_lt | now apply N.eqb_eq].
Qed.

Lemma char_facts (s : N) :
  (s < 64)%N ->
  a2b (b2a s) = Some s /\ Ascii.eqb (b2a s) "=" = false
  /\ (N_of_ascii (b2a s) <? 128)%N = true.
Proof.
  intros Hs.
  assert (H : all_from 64 0 char_ok = true) by (vm_compute; reflexivity).
  pose proof (all_from_spec 64 0 _ H s ltac:(lia)) as Hc.
  unfold char_ok in Hc.
  apply andb_prop in Hc as [Hc H3]. apply andb_prop in Hc as [H1 H2].
  destruct (a2b (b2a s)) as [v|]; [|discriminate].
  apply N.eqb_eq in H1 as ->.
  repeat split; [|exact H3]. now destruct (Ascii.eqb (b2a s) "=").
Qed.

(** The loop on a character of the alphabet. *)
Lemma a2b_loop_char (s : N) (rest : string) (q : nat) (l : N) (pads : nat)
  (out : list Byte.byte) :
  (s < 64)%N ->
  a2b_loop (String (b2a s) rest) q l pads out =
  match q with
  | O => a2b_loop rest 1%nat s O out
  | S O =>
      a2b_loop rest 2%nat (N.land s 15) O
        (out ++ [byte_of_N (N.lor (N.shiftl l 2) (N.shiftr s 4))])
  | S (S O) =>
      a2b_loop rest 3%nat (N.land s 3) O
        (out ++ [byte_of_N (N.lor (N.shiftl l 4) (N.shiftr s 2))])
  | _ =>
      a2b_loop rest O 0%N O
        (out ++ [byte_of_N (N.lor (N.shiftl l 6) s)])
  end.
Proof.
  intros Hs. destruct (char_facts s Hs) as (Hv & Hpad & _).
  cbn [a2b_loop]. now rewrite Hpad, Hv.
Qed.

Lemma list_ind3 {A : Type} (P : list A -> Prop) :
  P [] -> (forall x, P [x]) -> (forall x y, P [x; y]) ->
  (forall x y z l, P l -> P (x :: y :: z :: l)) ->
  forall l, P l.
Proof.
  intros H0 H1 H2 H3 l.
  assert (H : P l /\ (forall x, P (x :: l)) /\ (forall x y, P (x :: y :: l))).
  { induction l as [|a l (IH0 & IH1 & IH2)]; [now repeat split|].
    repeat split; [apply IH1 | intros x; apply IH2 | intros x y; now apply H3]. }
  apply H.
Qed.

Lemma b64encode_1 (x : Byte.byte) :
  b64encode [x] =
  String (b2a (N.shiftr (Byte.to_N x) 2))
 (String (b2a (sextet2 (Byte.to_N x) 0)) "==").
Proof. unfold sextet2. now rewrite N.shiftr_0_l, N.lor_0_r. Qed.

Lemma b64encode_2 (x y : Byte.byte) :
  b64encode [x; y] =
  String (b2a (N.shiftr (Byte.to_N x) 2))
 (String (b2a (sextet2 (Byte.to_N x) (Byte.to_N y)))
 (String (b2a (sextet3 (Byte.to_N y) 0)) "=")).
Proof. unfold sextet3. now rewrite N.shiftr_0_l, N.lor_0_r. Qed.

Lemma b64encode_3 (x y z : Byte.byte) (rest : list Byte.byte) :
  b64encode (x :: y :: z :: rest) =
  String (b2a (N.shiftr (Byte.to_N x) 2))
 (String (b2a (sextet2 (Byte.to_N x) (Byte.to_N y)))
 (String (b2a (sextet3 (Byte.to_N y) (Byte.to_N z)))
 (String (b2a (N.land (Byte.to_N z) 63)) (b64encode rest)))).
Proof. reflexivity. Qed.

(** Decoding what the encoder wrote, from the start of a group: the bytes
    come back, appended to those already written. *)
Lemma a2b_loop_b64encode (b : list Byte.byte) :
  forall (l : N) (pads : nat) (out : list Byte.byte),
    a2b_loop (b64encode b) O l pads out = inr (out ++ b)%list.
Proof.
  induction b as [|x|x y|x y z rest IH] using list_ind3; intros l pads out.
  - cbn [b64encode a2b_loop]. now rewrite app_nil_r.
  - rewrite b64encode_1.
    destruct (head_facts (Byte.to_N x) 0 (to_N_lt x) ltac:(lia))
      as (H1 & H2 & Hx & _).
    rewrite (a2b_loop_char _ _ _ _ _ _ H1), (a2b_loop_char _ _ _ _ _ _ H2).
    rewrite Hx, byte_of_to_N. reflexivity.
  - rewrite b64encode_2.
    destruct (head_facts (Byte.to_N x) (Byte.to_N y) (to_N_lt x) (to_N_lt y))
      as (H1 & H2 & Hx & Hl).
    destruct (tail_facts (Byte.to_N y) 0 (to_N_lt y) ltac:(lia))
      as (H3 & _ & Hy & _).
    rewrite (a2b_loop_char _ _ _ _ _ _ H1), (a2b_loop_char _ _ _ _ _ _ H2),
      (a2b_loop_char _ _ _ _ _ _ H3).
    rewrite Hx, Hl, Hy, !byte_of_to_N, <- app_assoc. reflexivity.
  - rewrite b64encode_3.
    destruct (head_facts (Byte.to_N x) (Byte.to_N y) (to_N_lt x) (to_N_lt y))
      as (H1 & H2 & Hx & Hl).
    destruct (tail_facts (Byte.to_N y) (Byte.to_N z) (to_N_lt y) (to_N_lt z))
      as (H3 & H4 & Hy & Hl' & Hz).
    rewrite (a2b_loop_char _ _ _ _ _ _ H1), (a2b_loop_char _ _ _ _ _ _ H2),
      (a2b_loop_char _ _ _ _ _ _ H3), (a2b_loop_char _ _ _ _ _ _ H4).
    rewrite Hx, Hl, Hy, Hl', Hz, !byte_of_to_N, IH, <- !app_assoc.
    reflexivity.
Qed.

Lemma is_ascii_char (s : N) (rest : string) :
  (s < 64)%N -> is_ascii (String (b2a s) rest) = is_ascii rest.
Proof.
  intros Hs. destruct (char_facts s Hs) as (_ & _ & Hc).
  cbn [is_ascii]. now rewrite Hc.
Qed.

Lemma is_ascii_b64encode (b : list Byte.byte) : is_ascii (b64encode b) = true.
Proof.
  induction b as [|x|x y|x y z rest IH] using list_ind3.
  - reflexivity.
  - rewrite b64encode_1.
    destruct (head_facts (Byte.to_N x) 0 (to_N_lt x) ltac:(lia))
      as (H1 & H2 & _).
    now rewrite !is_ascii_char.
  - rewrite b64encode_2.
    destruct (head_facts (Byte.to_N x) (Byte.to_N y) (to_N_lt x) (to_N_lt y))
      as (H1 & H2 & _).
    destruct (tail_facts (Byte.to_N y) 0 (to_N_lt y) ltac:(lia)) as (H3 & _).
    now rewrite !is_ascii_char.
  - rewrite b64encode_3.
    destruct (head_facts (Byte.to_N x) (Byte.to_N y) (to_N_lt x) (to_N_lt y))
      as (H1 & H2 & _).
    destruct (tail_facts (Byte.to_N y) (Byte.to_N z) (to_N_lt y) (to_N_lt z))
      as (H3 & H4 & _).
    now rewrite !is_ascii_char.
Qed.

(** [b64decode(b64encode(b)) == b] *)
Lemma b64decode_b64encode (b : list Byte.byte) :
  b64decode (b64encode b) = inr b.
Proof.
  unfold b64decode. now rewrite is_ascii_b64encode, a2b_loop_b64encode.
Qed.

End Base64Roundtrip.

Section FetchInline.

Import Veo.

(** C4. A descriptor without "gcsUri" whose "bytesBase64Encoded" is the
    base64 text of [b] is fetched as [b] itself; and [download_video] raises
    the error of line 85 in exactly one situation, when the descriptor has
    neither key. *)
Theorem download_video_inline_roundtrip :
  (forall (gcs : Gcs) (b : list Byte.byte) (v : Video),
      v !! "gcsUri" = None ->
      v !! "bytesBase64Encoded" = Some (Base64.b64encode b) ->
      download_video gcs v = inr b)
  /\ (forall (gcs : Gcs) (v : Video),
        download_video gcs v = inl unsupported_encoding
        <-> (v !! "gcsUri" = None /\ v !! "bytesBase64Encoded" = None)).
Proof.
  split.
  - intros gcs b v H1 H2.
    rewrite (download_video_inline gcs v _ H1 H2).
    apply b64decode_b64encode.
  - apply unsupported_encoding_iff.
Qed.

End FetchInline.

Lemma download_video_inline_roundtrip_witness :
  let gcs : Veo.Gcs := fun _ _ => inl "no object storage" in
  Veo.download_video gcs {[ "bytesBase64Encoded" := "aGk=" ]} = inr [Byte.x68; Byte.x69]
  /\ Veo.download_video gcs ∅ = inl Veo.unsupported_encoding.
Proof.
  intros gcs. destruct download_video_inline_roundtrip as [Hround Hiff]. split.
  - apply (Hround gcs [Byte.x68; Byte.x69]); reflexivity.
  - apply Hiff. split; reflexivity.
Defined.

Lemma poll_operation_protocol_witness :
  let model := "veo-3.1-fast-generate-001" in
  let done := Veo.poll_operation Scenario.client Scenario.slow_remote
                "operations/1" model 600 Scenario.idle_net in
  let late := Veo.poll_operation Scenario.client Scenario.stuck_remote
                "operations/1" model 12 Scenario.idle_net in
  Veo.p_videos (snd done) = [Scenario.inline_video]
  /\ length (Veo.calls (fst done)) = 3%nat
  /\ snd late = Veo.timed_out.
Proof.
  intros model done late.
  pose proof (poll_operation_protocol Scenario.client Scenario.slow_remote
                "operations/1" model 600 Scenario.idle_net) as Ha.
  pose proof (poll_operation_protocol Scenario.client Scenario.stuck_remote
                "operations/1" model 12 Scenario.idle_net) as Hb.
  cbv zeta in Ha, Hb. destruct Ha as [Ha _]. destruct Hb as [_ Hb].
  destruct (Ha 2%nat Scenario.inline_video) as (_ & _ & Hv & Hc & Hl & _).
  - intros i Hi. exists Scenario.running.
    destruct i as [|[|i]]; [split; reflexivity | split; reflexivity | lia].
  - exists Scenario.finished,
      {| Veo.videos := Some [Scenario.inline_video];
         Veo.raiMediaFilteredCount := None |}.
    repeat split; reflexivity.
  - vm_compute. reflexivity.
  - split; [exact Hv|]. split.
    + subst done. rewrite Hc, length_app, Hl. reflexivity.
    + apply Hb. intros i _. exists Scenario.running. split; reflexivity.
Defined.

(** ** The request pipeline *)

Section Pipeline.

Import Bot.

Lemma truthy_strip (s : string) :
  Str.truthy (Str.strip s) = true -> Str.truthy s = true.
Proof. now destruct s. Qed.

(** A request that finds the quota used up is answered with the quota
    message and nothing else happens: the handler is suspended in that
    answer with the world as it found it. *)
Lemma quota_rejects (env : Env) (message : Message) (w : World) :
  Str.truthy (Str.strip (default "" (text message))) = true ->
  Config.GLOBAL_VIDEO_QUOTA_LIMIT
  <= MessagesDb.get_successful_videos_count (messages w) ->
  handle_message env message w
  = await (Answer (QuotaLimitReached Config.GLOBAL_VIDEO_QUOTA_LIMIT
                     (MessagesDb.get_successful_videos_count (messages w))
                     (MessagesDb.get_total_cost (messages w))
                     (Config.GLOBAL_VIDEO_QUOTA_LIMIT
                      - MessagesDb.get_successful_videos_count (messages w)))) w.
Proof.
  intros Hprompt Hquota. unfold handle_message.
  rewrite (truthy_strip _ Hprompt), Hprompt. cbn [negb].
  unfold bind, get_successful_videos_count, get_total_cost. cbn [bind_step].
  destruct (Z.leb_spec Config.GLOBAL_VIDEO_QUOTA_LIMIT
              (MessagesDb.get_successful_videos_count (messages w))); [reflexivity|lia].
Qed.

(** With the quota used up, any message at all only gets an answer. *)
Lemma at_quota_only_answers (env : Env) (message : Message) (w : World) :
  Config.GLOBAL_VIDEO_QUOTA_LIMIT
  <= MessagesDb.get_successful_videos_count (messages w) ->
  exists c, handle_message env message w = await c w.
Proof.
  intros Hquota. unfold handle_message.
  destruct (negb (Str.truthy (default "" (text message)))); [eauto|].
  destruct (negb (Str.truthy (Str.strip (default "" (text message))))); [eauto|].
  unfold bind, get_successful_videos_count, get_total_cost. cbn [bind_step].
  destruct (Z.leb_spec Config.GLOBAL_VIDEO_QUOTA_LIMIT
              (MessagesDb.get_successful_videos_count (messages w))); [eauto|lia].
Qed.

(** With the quota used up and no generation in flight, nothing that happens
    changes the world: every arrival is turned away, for good. *)
Lemma quota_holds_while_idle (acts : list Action) :
  forall l : Loop,
    Config.GLOBAL_VIDEO_QUOTA_LIMIT
    <= MessagesDb.get_successful_videos_count (messages (world l)) ->
    only_answers_pending l ->
    world (steps l acts) = world l /\ only_answers_pending (steps l acts).
Proof.
  induction acts as [|a acts IH]; intros l Hquota Hidle; [now split|].
  assert (Hstep : world (step l a) = world l /\ only_answers_pending (step l a)).
  { destruct a as [env message|i o]; cbn [step].
    - destruct (at_quota_only_answers env message (world l) Hquota) as [c ->].
      unfold await, settle, only_answers_pending. cbn [world waiting].
      split; [reflexivity|]. apply Forall_app. split; [exact Hidle|].
      constructor; [|constructor]. intros o w'. cbn [snd].
      destruct o; eauto.
    - destruct (waiting l !! i) as [[c k]|] eqn:E; [|now split].
      pose proof Hidle as Hk. unfold only_answers_pending in Hk.
      rewrite Forall_lookup in Hk. specialize (Hk i (c, k) E o (world l)).
      cbn [snd] in Hk. destruct Hk as [r ->].
      unfold settle, only_answers_pending. cbn [world waiting].
      split; [reflexivity|]. now apply Forall_delete. }
  destruct Hstep as [Hw Hi]. cbn [steps fold_left].
  destruct (IH (step l a)) as [Hw' Hi']; [now rewrite Hw | exact Hi |].
  fold (steps (step l a) acts) in *. split; [congruence | exact Hi'].
Qed.

(** Every update on a failure path names the status only, and such an update
    leaves every cost as it was. *)
Lemma status_update_keeps_costs (t : MessagesDb.Table) (message_id : Z)
  (status : string) :
  map MessagesDb.cost
      (MessagesDb.rows (MessagesDb.update_message t message_id None None None
                          (Some status)))
  = map MessagesDb.cost (MessagesDb.rows t).
Proof.
  unfold MessagesDb.update_message. cbn [MessagesDb.rows].
  rewrite map_map. apply map_ext. intros r.
  now destruct (Z.eqb (MessagesDb.id r) message_id).
Qed.

(** A record is created pending, at no cost. *)
Lemma created_pending (t : MessagesDb.Table) (now uid : Z) (name : option string)
  (model : string) (duration : Z) (resolution : string) :
  let '(t', new_id) :=
    MessagesDb.create_message t now uid name model duration resolution 0 0 0%Q
      "pending" in
  exists r, MessagesDb.rows t' = (MessagesDb.rows t ++ [r])%list
            /\ MessagesDb.id r = new_id
            /\ MessagesDb.status r = "pending" /\ MessagesDb.cost r = 0%Q.
Proof. cbn. eexists. repeat split. Qed.

(** Whether the delivery call returns or raises, [cleanup] has run by the
    time the [try ... finally] of lines 196 to 204 is left. *)
Lemma cleanup_after_delivery (env : Env) (tg : TgCall -> option string)
  (path : string) (caption : Caption) (w : World) :
  snd (fst (run tg (try_finally (await (AnswerVideo path caption))
                      (cleanup env path) w)))
  = cleanup env path w.
Proof.
  unfold try_finally, await. cbn [finally_step run].
  now destruct (tg (AnswerVideo path caption)).
Qed.

(** [cleanup] removes the file unless [unlink] raises. *)
Lemma cleanup_removes (env : Env) (path : string) (w : World) :
  Storage.unlink_error (fs env) = None ->
  files (cleanup env path w) !! path = None.
Proof.
  intros H. unfold cleanup, Storage.cleanup. cbn [files]. rewrite H.
  destruct (files w !! path) eqn:E; [apply lookup_delete_eq | exact E].
Qed.

End Pipeline.

Section PipelineRuns.

Import Bot Scenario.

(** A request whose job the remote never reports done: after ten minutes of
    polling the user is told so, the record is marked failed, and nothing
    was downloaded or written. *)
Lemma stuck_request_fetches_nothing :
  let ended := run tg_ok (handle_message env_stuck sunset fresh) in
  fst (fst ended)
  = [Answer GenerationRequested; EditText GenerationStarted;
     EditText (GenerationFailed "Operation timed out")]
  /\ files (snd (fst ended)) = ∅
  /\ outcome_of 1 (snd (fst ended)) = Some ("failed", 0%Q)
  /\ length (Veo.calls (net (snd (fst ended)))) = 115%nat.
Proof. vm_compute. repeat split. Qed.

(** C5, as the code runs. The [finally] that removes the temporary file
    spans the delivery call alone. When sending the video raises, the file
    is gone afterwards; when writing the bytes raises, or the edit of the
    status message to the upload notice raises, the handler ends (the error
    is reported, the record marked failed) and the file is still there. *)
Theorem temp_file_left_behind :
  let full := run tg_ok (handle_message env_full_disk sunset fresh) in
  let notice := run tg_notice_fails (handle_message env sunset fresh) in
  let video := run tg_video_fails (handle_message env sunset fresh) in
  (files (snd (fst full)) !! temp_path = Some [] /\ snd full = inr tt)
  /\ (files (snd (fst notice)) !! temp_path = Some [Byte.x68; Byte.x69]
      /\ snd notice = inr tt)
  /\ files (snd (fst video)) !! temp_path = None.
Proof. vm_compute. repeat split. Qed.

(** C6, as the code runs. A request whose video is delivered has its record
    set to success with the cost; if deleting the status message then raises,
    the handler's catch-all sets the same record to failed and leaves the
    cost: the status has changed twice and a failed record carries a cost
    that is not zero. *)
Theorem delivered_then_failed :
  let idle := {| world := fresh; waiting := [] |} in
  let created := step idle (Arrive env sunset) in
  let sent := steps idle (delivery sunset) in
  let ended := step sent (Resume 0 (Some "Bad Request: message to delete not found")) in
  outcome_of 1 (world created) = Some ("pending", 0%Q)
  /\ awaited sent = [Delete]
  /\ outcome_of 1 (world sent) = Some ("success", F64.value (F64.lit 1.20))
  /\ outcome_of 1 (world ended) = Some ("failed", F64.value (F64.lit 1.20))
  /\ ~ (F64.value (F64.lit 1.20) == 0)%Q.
Proof. vm_compute. repeat split. intros H. discriminate H. Qed.

(** C2, as the code runs. With 69 delivered videos, a request is delivered
    and makes the count 70; while its handler waits in the deletion of the
    status message, a second request is turned away for the quota, the ledger
    untouched. The deletion raises, the catch-all marks the delivered record
    failed, the count is 69 again, and a third request is accepted: a
    pending record is created for it. *)
Theorem quota_reopens :
  let idle := {| world := one_left; waiting := [] |} in
  let reached := steps idle (delivery sunset) in
  let refused := step reached (Arrive env harbour) in
  let revoked := step refused (Resume 0 (Some "Bad Request: message to delete not found")) in
  let reopened := step revoked (Arrive env meadow) in
  MessagesDb.get_successful_videos_count (messages (world reached)) = 70
  /\ awaited refused
     = [Delete;
        Answer (QuotaLimitReached 70 70
                  (MessagesDb.get_total_cost (messages (world reached))) 0)]
  /\ messages (world refused) = messages (world reached)
  /\ MessagesDb.get_successful_videos_count (messages (world revoked)) = 69
  /\ outcome_of 70 (world revoked) = Some ("failed", F64.value (F64.lit 1.20))
  /\ outcome_of 71 (world revoked) = None
  /\ outcome_of 71 (world reopened) = Some ("pending", 0%Q)
  /\ awaited reopened
     = [Answer (QuotaLimitReached 70 70
                  (MessagesDb.get_total_cost (messages (world reached))) 0);
        EditText (ErrorOccurred "Bad Request: message to delete not found");
        Answer GenerationRequested].
Proof. vm_compute. repeat split. Qed.

End PipelineRuns.

(** * Further properties *)

(** ** The ledger *)

Section Ledger.

Import MessagesDb.

Lemma ids_create (t : Table) (now uid : Z) (name : option string)
  (model : string) (duration : Z) (resolution : string) (pt opt : Z) (c : Q)
  (st : string) :
  ids (fst (create_message t now uid name model duration resolution pt opt c st))
  = (ids t ++ [last_id t + 1])%list.
Proof. unfold ids. cbn. now rewrite map_app. Qed.

Lemma ids_update (t : Table) (message_id : Z) (pt opt : option Z)
  (c : option Q) (st : option string) :
  ids (update_message t message_id pt opt c st) = ids t
  /\ last_id (update_message t message_id pt opt c st) = last_id t.
Proof.
  unfold ids, update_message.
  assert (H : map id (map (fun r => if Z.eqb (id r) message_id
                                    then apply_updates pt opt c st r else r)
                         (rows t)) = map id (rows t)).
  { rewrite map_map. apply map_ext. intros r.
    now destruct (Z.eqb (id r) message_id). }
  destruct pt, opt, c, st; cbn [rows last_id]; now rewrite ?H.
Qed.

Lemma ledger_wf_create (t : Table) (now uid : Z) (name : option string)
  (model : string) (duration : Z) (resolution : string) (pt opt : Z) (c : Q)
  (st : string) :
  ledger_wf t ->
  ledger_wf (fst (create_message t now uid name model duration resolution
                    pt opt c st)).
Proof.
  intros (Hnd & Hall & Hpos). unfold ledger_wf. rewrite ids_create.
  unfold create_message. cbn [fst last_id].
  rewrite Forall_forall in Hall. repeat split.
  - apply NoDup_app. split; [exact Hnd|]. split; [|apply NoDup_singleton].
    intros i Hi Hi'. apply list_elem_of_singleton in Hi'. subst i.
    specialize (Hall _ Hi). lia.
  - apply Forall_app. split.
    + apply Forall_forall. intros i Hi. specialize (Hall _ Hi). lia.
    + constructor; [lia | constructor].
  - lia.
Qed.

Lemma ledger_wf_update (t : Table) (message_id : Z) (pt opt : option Z)
  (c : option Q) (st : option string) :
  ledger_wf t -> ledger_wf (update_message t message_id pt opt c st).
Proof.
  unfold ledger_wf. destruct (ids_update t message_id pt opt c st) as [-> ->].
  trivial.
Qed.

Lemma ledger_wf_calls (calls : list LedgerCall) :
  forall t, ledger_wf t -> ledger_wf (fold_left ledger_call calls t).
Proof.
  induction calls as [|c calls IH]; intros t Hwf; [exact Hwf|].
  cbn [fold_left]. apply IH. destruct c; cbn [ledger_call].
  - now apply ledger_wf_create.
  - now apply ledger_wf_update.
Qed.

(** X1. Whatever calls were made on the ledger since it was empty, no two rows
    share an id, every id is positive, and the id the next [create_message]
    returns is larger than all of them, so the ids are still distinct after
    it. *)
Theorem ledger_ids_stay_unique (calls : list LedgerCall)
  (now uid : Z) (name : option string) (model : string) (duration : Z)
  (resolution : string) (pt opt : Z) (c : Q) (st : string) :
  let t := ledger_after calls in
  let created := create_message t now uid name model duration resolution
                   pt opt c st in
  NoDup (ids t)
  /\ Forall (fun i => 0 < i < snd created) (ids t)
  /\ NoDup (ids (fst created)).
Proof.
  intros t created.
  assert (Hwf : ledger_wf t).
  { apply ledger_wf_calls. unfold ledger_wf, ids. cbn.
    split; [constructor | split; [constructor | lia]]. }
  pose proof (ledger_wf_create t now uid name model duration resolution
                pt opt c st Hwf) as (Hnd' & _).
  destruct Hwf as (Hnd & Hall & _).
  repeat split; [exact Hnd | | exact Hnd'].
  eapply Forall_impl; [exact Hall|]. cbn. intros i Hi. lia.
Qed.

(** X2. [update_message] changes no id and no row but those with the id it was
    given, and leaves the counter alone. *)
Theorem update_message_touches_one_id (t : Table) (message_id : Z)
  (pt opt : option Z) (c : option Q) (st : option string) :
  let t' := update_message t message_id pt opt c st in
  last_id t' = last_id t
  /\ Forall2 (fun r r' => id r' = id r /\ (id r <> message_id -> r' = r))
             (rows t) (rows t').
Proof.
  intros t'. split; [apply ids_update|].
  subst t'. unfold update_message.
  assert (H : Forall2 (fun r r' => id r' = id r /\ (id r <> message_id -> r' = r))
                (rows t)
                (map (fun r => if Z.eqb (id r) message_id
                               then apply_updates pt opt c st r else r) (rows t))).
  { induction (rows t) as [|r l IH]; cbn [map]; constructor; [|exact IH].
    destruct (Z.eqb_spec (id r) message_id); [|now split].
    split; [reflexivity | intros Hne; contradiction]. }
  assert (Hsame : forall l : list Row,
             Forall2 (fun r r' => id r' = id r /\ (id r <> message_id -> r' = r)) l l).
  { intros l. induction l as [|r l IH]; constructor; [now split | exact IH]. }
  specialize (Hsame (rows t)).
  destruct pt, opt, c, st; cbn [rows]; assumption.
Qed.

Lemma update_rows_absent (l : list Row) (message_id : Z) (f : Row -> Row) :
  message_id ∉ map id l ->
  map (fun r => if Z.eqb (id r) message_id then f r else r) l = l.
Proof.
  induction l as [|r l IH]; intros Hnot; [reflexivity|].
  cbn [map] in *. rewrite not_elem_of_cons in Hnot. destruct Hnot as [Hne Hnot].
  destruct (Z.eqb_spec (id r) message_id); [congruence|].
  now rewrite IH.
Qed.

(** X3. An update addressed to an id that no row has leaves the table exactly as
    it was. *)
Theorem update_message_unknown_id (t : Table) (message_id : Z)
  (pt opt : option Z) (c : option Q) (st : option string) :
  message_id ∉ ids t ->
  update_message t message_id pt opt c st = t.
Proof.
  intros Hnot. unfold update_message.
  rewrite (update_rows_absent _ _ _ Hnot).
  destruct t, pt, opt, c, st; reflexivity.
Qed.

Lemma count_cons (r : Row) (l : list Row) :
  Z.of_nat (length (filter (fun r => status r = "success") (r :: l)))
  = counts (status r)
    + Z.of_nat (length (filter (fun r => status r = "success") l)).
Proof.
  unfold counts. destruct (String.eqb_spec (status r) "success") as [E|Hne].
  - rewrite filter_cons_True by exact E. cbn [length]. lia.
  - rewrite filter_cons_False by exact Hne. lia.
Qed.

Lemma count_app (l1 l2 : list Row) :
  Z.of_nat (length (filter (fun r => status r = "success") (l1 ++ l2)%list))
  = Z.of_nat (length (filter (fun r => status r = "success") l1))
    + Z.of_nat (length (filter (fun r => status r = "success") l2)).
Proof. rewrite filter_app, length_app. apply Nat2Z.inj_add. Qed.

(** X4. A new record moves the quota counter by one if it is created with status
    "success" and not at all otherwise; the pending records the pipeline
    creates never move it. *)
Theorem count_after_create (t : Table) (now uid : Z) (name : option string)
  (model : string) (duration : Z) (resolution : string) (pt opt : Z) (c : Q)
  (st : string) :
  get_successful_videos_count
    (fst (create_message t now uid name model duration resolution pt opt c st))
  = get_successful_videos_count t + counts st
  /\ counts "pending" = 0 /\ counts "success" = 1.
Proof.
  split; [|split; reflexivity].
  unfold get_successful_videos_count, create_message. cbn [fst rows].
  rewrite count_app, count_cons. cbn [status]. rewrite filter_nil.
  cbn [length]. lia.
Qed.

Lemma count_update_rows (l : list Row) (message_id : Z) (f : Row -> Row)
  (r : Row) :
  NoDup (map id l) -> r ∈ l -> id r = message_id ->
  Z.of_nat (length (filter (fun r => status r = "success")
                      (map (fun r => if Z.eqb (id r) message_id then f r else r) l)))
  = Z.of_nat (length (filter (fun r => status r = "success") l))
    - counts (status r) + counts (status (f r)).
Proof.
  induction l as [|r0 l IH]; intros Hnd Hin Hid.
  - now apply elem_of_nil in Hin.
  - cbn [map] in *. apply NoDup_cons in Hnd as [Hnot Hnd].
    rewrite !count_cons. apply elem_of_cons in Hin as [->|Hin].
    + rewrite <- Hid, Z.eqb_refl.
      rewrite update_rows_absent by exact Hnot. lia.
    + destruct (Z.eqb_spec (id r0) message_id) as [E|_].
      * exfalso. apply Hnot. rewrite E, <- Hid.
        apply list_elem_of_fmap. now exists r.
      * rewrite (IH Hnd Hin Hid). lia.
Qed.

(** X5. On a ledger with distinct ids, an update of an existing record moves the
    quota counter by the difference between what its new status counts and
    what its old status counted: up by one for pending to success, down by
    one for success to failed, not at all when the status is not supplied. *)
Theorem count_after_update (t : Table) (message_id : Z) (pt opt : option Z)
  (c : option Q) (st : option string) (r : Row) :
  NoDup (ids t) -> r ∈ rows t -> id r = message_id ->
  get_successful_videos_count (update_message t message_id pt opt c st)
  = get_successful_videos_count t
    - counts (status r) + counts (default (status r) st).
Proof.
  intros Hnd Hin Hid. unfold get_successful_videos_count, update_message.
  pose proof (count_update_rows (rows t) message_id (apply_updates pt opt c st)
                r Hnd Hin Hid) as H.
  cbn [apply_updates status] in H.
  destruct pt, opt, c, st; cbn [rows default from_option id] in *;
    first [exact H | lia].
Qed.

Lemma disjoint_filters_length (l : list Row) :
  (length (filter (fun r => status r = "success") l)
   + length (filter (fun r => status r = "failed") l) <= length l)%nat.
Proof.
  induction l as [|r l IH]; [reflexivity|].
  destruct (String.eqb_spec (status r) "success") as [E|Hne].
  - rewrite filter_cons_True by exact E.
    rewrite (filter_cons_False (fun r => status r = "failed")) by (cbn; congruence).
    cbn [length]. lia.
  - rewrite filter_cons_False by exact Hne.
    destruct (String.eqb_spec (status r) "failed") as [E|Hne'].
    + rewrite filter_cons_True by exact E. cbn [length]. lia.
    + rewrite filter_cons_False by exact Hne'. cbn [length]. lia.
Qed.

Lemma remove_dups_shorter (l : list Z) : (length (remove_dups l) <= length l)%nat.
Proof.
  induction l as [|x l IH]; [reflexivity|]. cbn [remove_dups].
  destruct (decide_rel elem_of x l); cbn [length]; lia.
Qed.

(** X6. In the statistics, successful and failed records together are never more
    than all records (pending ones are in neither), the users are never more
    than the records, and the successful count is the quota counter. *)
Theorem get_stats_bounds (t : Table) :
  let s := get_stats t in
  successful_messages s + failed_messages s <= total_messages s
  /\ 0 <= unique_users s <= total_messages s
  /\ successful_messages s = get_successful_videos_count t
  /\ (total_messages s = 0 -> s = {| total_messages := 0; unique_users := 0;
                                     total_cost := 0%Q; total_prompt_tokens := 0;
                                     total_output_prompt_tokens := 0;
                                     successful_messages := 0;
                                     failed_messages := 0 |}).
Proof.
  intros s. subst s. unfold get_stats. cbn.
  pose proof (disjoint_filters_length (rows t)).
  pose proof (remove_dups_shorter (map user_id (rows t))) as Hu.
  rewrite length_map in Hu.
  repeat split; try lia.
  intros H0. destruct (rows t); [reflexivity | cbn in H0; lia].
Qed.

(** X7. A new record adds one to the total of the statistics; an update changes
    neither the total nor the number of users. *)
Theorem get_stats_after_calls (t : Table) (now uid : Z) (name : option string)
  (model : string) (duration : Z) (resolution : string) (pt opt : Z) (c : Q)
  (st : string) (message_id : Z) (pt' opt' : option Z) (c' : option Q)
  (st' : option string) :
  total_messages (get_stats (fst (create_message t now uid name model duration
                                    resolution pt opt c st)))
  = total_messages (get_stats t) + 1
  /\ total_messages (get_stats (update_message t message_id pt' opt' c' st'))
     = total_messages (get_stats t)
  /\ unique_users (get_stats (update_message t message_id pt' opt' c' st'))
     = unique_users (get_stats t).
Proof.
  split; [|split].
  - unfold get_stats, create_message. cbn. rewrite length_app. cbn. lia.
  - unfold get_stats, update_message.
    destruct pt', opt', c', st'; cbn; now rewrite ?length_map.
  - unfold get_stats, update_message.
    assert (H : map user_id
                  (map (fun r => if Z.eqb (id r) message_id
                                 then apply_updates pt' opt' c' st' r else r) (rows t))
                = map user_id (rows t)).
    { rewrite map_map. apply map_ext. intros r.
      now destruct (Z.eqb (id r) message_id). }
    destruct pt', opt', c', st'; cbn [unique_users rows]; now rewrite ?H.
Qed.

(** X8. The total cost of the statistics is summed over all records, the total
    cost shown with the quota over the successful ones: the two agree when
    every record that is not successful has cost zero. *)
Theorem total_costs_agree (t : Table) :
  Forall (fun r => status r <> "success" -> (cost r == 0)%Q) (rows t) ->
  (total_cost (get_stats t) == get_total_cost t)%Q.
Proof.
  unfold get_stats, get_total_cost. cbn [total_cost].
  induction (rows t) as [|r l IH]; intros Hall; [reflexivity|].
  apply Forall_cons in Hall as [Hr Hall]. cbn [fold_right].
  destruct (String.eqb_spec (status r) "success") as [E|Hne].
  - rewrite filter_cons_True by exact E. cbn [fold_right].
    now rewrite (IH Hall).
  - rewrite filter_cons_False by exact Hne.
    rewrite (Hr Hne), (IH Hall). apply Qplus_0_l.
Qed.

End Ledger.

Lemma count_after_update_witness :
  MessagesDb.get_successful_videos_count
    (MessagesDb.update_message (Scenario.delivered 3) 2 None None None (Some "failed"))
  = 2.
Proof.
  pose proof (count_after_update (Scenario.delivered 3) 2 None None None
                (Some "failed")
                {| MessagesDb.id := 2; MessagesDb.user_id := 7;
                   MessagesDb.username := Some "ann"; MessagesDb.timestamp := 0;
                   MessagesDb.prompt_tokens := 0;
                   MessagesDb.output_prompt_tokens := 0;
                   MessagesDb.model := "veo-3.1-fast-generate-001";
                   MessagesDb.cost := F64.value (F64.lit 1.20);
                   MessagesDb.duration_seconds := 8;
                   MessagesDb.resolution := "720p";
                   MessagesDb.status := "success" |}) as H.
  rewrite H; [reflexivity | | | reflexivity].
  - unfold ids. cbn. repeat constructor; rewrite ?not_elem_of_cons;
      repeat split; try lia; apply not_elem_of_nil.
  - cbn. apply elem_of_cons. right. apply elem_of_cons. now left.
Defined.

Lemma total_costs_agree_witness :
  (MessagesDb.total_cost (MessagesDb.get_stats Scenario.mixed)
   == MessagesDb.get_total_cost Scenario.mixed)%Q.
Proof.
  apply total_costs_agree. vm_compute.
  repeat constructor; intros H;
    first [reflexivity | exfalso; apply H; reflexivity].
Defined.

Lemma update_message_unknown_id_witness :
  MessagesDb.update_message (Scenario.delivered 3) 9 None None (Some 2.50%Q)
    (Some "failed")
  = Scenario.delivered 3.
Proof.
  apply update_message_unknown_id. unfold ids. cbn.
  rewrite !not_elem_of_cons. repeat split; try lia. apply not_elem_of_nil.
Defined.

(** ** The settings store, further *)

Section SettingsStoreFurther.

Import SettingsDb.

(** X9. [set_user_settings] and [reset_user_settings] for one user leave the
    row, and so the settings, of every other user as they were. *)
Theorem settings_writes_are_per_user (db : Table) (uid other : Z)
  (m : option string) (d : option Z) (r : option string) :
  other <> uid ->
  fst (set_user_settings db uid m d r) !! other = db !! other
  /\ fst (reset_user_settings db uid) !! other = db !! other
  /\ get_user_settings (fst (set_user_settings db uid m d r)) other
     = get_user_settings db other
  /\ get_user_settings (fst (reset_user_settings db uid)) other
     = get_user_settings db other.
Proof.
  intros Hne.
  assert (H1 : fst (set_user_settings db uid m d r) !! other = db !! other).
  { unfold set_user_settings. cbn [fst]. apply lookup_insert_ne. congruence. }
  assert (H2 : fst (reset_user_settings db uid) !! other = db !! other).
  { unfold reset_user_settings. cbn [fst]. apply lookup_delete_ne. congruence. }
  repeat split; [exact H1 | exact H2 | |];
    unfold get_user_settings; now rewrite ?H1, ?H2.
Qed.

(** X10. Two [set_user_settings] calls for the same user amount to one call in
    which each field is the one the second call supplied, or else the one the
    first call supplied: same table, same record returned. *)
Theorem set_user_settings_twice (db : Table) (uid : Z)
  (m1 m2 : option string) (d1 d2 : option Z) (r1 r2 : option string) :
  set_user_settings (fst (set_user_settings db uid m1 d1 r1)) uid m2 d2 r2
  = set_user_settings db uid (later_or m2 m1) (later_or d2 d1) (later_or r2 r1).
Proof.
  unfold set_user_settings. cbn [fst].
  unfold get_user_settings. rewrite !lookup_insert_eq.
  destruct (db !! uid) as [row|], m1, m2, d1, d2, r1, r2; cbn;
    now rewrite insert_insert_eq.
Qed.

(** X11. [reset_user_settings] forgets a preceding [set_user_settings] for the
    same user, and doing it twice is doing it once. *)
Theorem reset_user_settings_absorbs (db : Table) (uid : Z)
  (m : option string) (d : option Z) (r : option string) :
  reset_user_settings (fst (set_user_settings db uid m d r)) uid
  = reset_user_settings db uid
  /\ reset_user_settings (fst (reset_user_settings db uid)) uid
     = reset_user_settings db uid.
Proof.
  unfold reset_user_settings, set_user_settings. cbn [fst].
  now rewrite delete_insert_eq, delete_delete_eq.
Qed.

End SettingsStoreFurther.

Lemma settings_writes_are_per_user_witness :
  let db : SettingsDb.Table :=
    {[ 8 := {| SettingsDb.s_model := "veo-3.0-generate-001";
               SettingsDb.s_duration := 4; SettingsDb.s_resolution := "1080p" |} ]} in
  SettingsDb.get_user_settings
    (fst (SettingsDb.set_user_settings db 7 None (Some 6) None)) 8
  = SettingsDb.get_user_settings db 8.
Proof.
  intros db.
  apply (settings_writes_are_per_user db 7 8 None (Some 6) None). lia.
Defined.

(** ** Temporary files *)

Section TemporaryFiles.

Import Storage.

(** X12. A temporary file that is created, perhaps written, and cleaned up leaves
    the directory as it was, provided the path was free and [unlink] works. *)
Theorem temp_file_life_cycle (fs : FsEnv) (suffix path : string)
  (data : list Byte.byte) (files : Files) :
  mkstemp fs suffix = inr path ->
  files !! path = None ->
  unlink_error fs = None ->
  let created := create_temp_file fs suffix files in
  snd created = inr path
  /\ fst created !! path = Some []
  /\ cleanup fs path (fst created) = files
  /\ cleanup fs path (fst (write_bytes fs path data (fst created))) = files.
Proof.
  intros Hmk Hfree Hunlink created. subst created.
  unfold create_temp_file. rewrite Hmk. cbn [fst snd].
  unfold cleanup, write_bytes. rewrite Hunlink.
  destruct (write_error fs); cbn [fst];
    rewrite ?lookup_insert_eq, ?insert_insert_eq, ?delete_insert_id by exact Hfree;
    auto.
Qed.

(** X13. [cleanup] touches no file but the one it is given; it does nothing when
    that file does not exist, and nothing when [unlink] raises. *)
Theorem cleanup_is_local (fs : FsEnv) (path other : string) (files : Files) :
  other <> path ->
  cleanup fs path files !! other = files !! other
  /\ (files !! path = None -> cleanup fs path files = files)
  /\ (unlink_error fs <> None -> cleanup fs path files = files).
Proof.
  intros Hne. unfold cleanup. repeat split.
  - destruct (files !! path); [|reflexivity].
    destruct (unlink_error fs); [reflexivity|].
    apply lookup_delete_ne. congruence.
  - now intros ->.
  - intros Herr. destruct (files !! path); [|reflexivity].
    now destruct (unlink_error fs).
Qed.

End TemporaryFiles.

Lemma temp_file_life_cycle_witness :
  let files : Storage.Files := {[ "/tmp/telegram-video-gen/old.mp4" := [Byte.x01] ]} in
  Storage.cleanup Scenario.healthy_fs Scenario.temp_path
    (fst (Storage.write_bytes Scenario.healthy_fs Scenario.temp_path [Byte.x68]
            (fst (Storage.create_temp_file Scenario.healthy_fs ".mp4" files))))
  = files.
Proof.
  intros files.
  apply (temp_file_life_cycle Scenario.healthy_fs ".mp4" Scenario.temp_path
           [Byte.x68] files); reflexivity.
Defined.

Lemma cleanup_is_local_witness :
  let files : Storage.Files := {[ "/tmp/telegram-video-gen/old.mp4" := [Byte.x01] ]} in
  Storage.cleanup Scenario.healthy_fs Scenario.temp_path files
    !! "/tmp/telegram-video-gen/old.mp4"
  = Some [Byte.x01].
Proof.
  intros files.
  destruct (cleanup_is_local Scenario.healthy_fs Scenario.temp_path
              "/tmp/telegram-video-gen/old.mp4" files) as [H _].
  - intros H. discriminate H.
  - rewrite H. reflexivity.
Defined.

(** ** The generation client, further *)

Section ClientFurther.

Import Veo.

Variable self : VeoClient.
Variable remote : Remote.

(** X14. Submitting issues one call, whatever comes back, and hands out a job
    exactly when the reply carries a non-empty name: the job then bears that
    name and the model asked for. A call that raises raises through; a reply
    without a name, or with an empty one, is a [ValueError] whose text is
    "Failed to get operation name: " followed by the reply as Python
    prints it. *)
Theorem generate_video_one_call (prompt model : string) (duration_seconds : Z)
  (resolution : string) (generate_audio : bool) (sample_count : Z) (n : Net) :
  let req := {| endpoint := model_endpoint self model "predictLongRunning";
                body := PredictBody prompt duration_seconds resolution
                          generate_audio sample_count |} in
  let reply := remote (length (calls n)) req in
  let result := generate_video self remote prompt model duration_seconds
                  resolution generate_audio sample_count n in
  calls (fst result) = (calls n ++ [(clock n, req)])%list
  /\ clock (fst result) = clock n + Z.of_N (latency reply)
  /\ (forall op, snd result = inr op <->
                 exists json, outcome reply = inr json
                              /\ r_name json = Some (operation_name op)
                              /\ operation_name op <> EmptyString
                              /\ op_model op = model)
  /\ (forall msg, outcome reply = inl msg -> snd result = inl (External msg))
  /\ (forall json, outcome reply = inr json ->
                   (r_name json = None \/ r_name json = Some EmptyString) ->
                   snd result
                   = inl (ValueError ("Failed to get operation name: "
                                      +:+ r_repr json))).
Proof.
  intros req reply result. subst result. unfold generate_video, _request.
  fold req. fold reply.
  destruct (outcome reply) as [msg|json] eqn:E.
  - cbn [fst snd calls clock].
    split; [reflexivity|]. split; [reflexivity|]. split; [|split].
    + intros op. split; [intros H; discriminate H|].
      intros (j & Hj & _); discriminate Hj.
    + intros m Hm. now injection Hm as ->.
    + intros j Hj. discriminate Hj.
  - destruct (r_name json) as [name|] eqn:En; [destruct name as [|c name]|];
      cbn [Str.truthy fst snd calls clock];
      (split; [reflexivity|]); (split; [reflexivity|]); (split; [|split]).
    + intros op. split; [intros H; discriminate H|].
      intros (j & Hj & Hn & Hne & _). injection Hj as <-. congruence.
    + intros m Hm. discriminate Hm.
    + intros j Hj _. now injection Hj as <-.
    + intros [on om]. cbn [operation_name op_model]. split.
      * intros H. injection H as <- <-. exists json.
        repeat split; [exact En | intros H; discriminate H].
      * intros (j & Hj & Hn & _ & <-). injection Hj as <-.
        rewrite En in Hn. now injection Hn as <-.
    + intros m Hm. discriminate Hm.
    + intros j Hj [Hn|Hn]; injection Hj as <-; rewrite En in Hn; discriminate Hn.
    + intros op. split; [intros H; discriminate H|].
      intros (j & Hj & Hn & _). injection Hj as <-. rewrite En in Hn.
      discriminate Hn.
    + intros m Hm. discriminate Hm.
    + intros j Hj _. now injection Hj as <-.
Qed.

Variable operation_name model : string.
Variable max_wait_time : Z.

Let req : HttpReq := status_request self model operation_name.
Let endpoint : string := model_endpoint self model "fetchPredictOperation".

(** One evaluation of the loop condition and, if it holds, one turn. *)
Lemma poll_loop_step (fuel : nat) (start_time : Z) (n : Net) :
  poll_loop remote (S fuel) endpoint operation_name start_time max_wait_time n
  = if (clock n - start_time <? 1000 * max_wait_time)%Z then
      let reply := remote (length (calls n)) req in
      let n' := {| clock := clock n + Z.of_N (latency reply);
                   calls := calls n ++ [(clock n, req)] |} in
      match outcome reply with
      | inl msg =>
          Some (n', {| p_done := true;
                       p_error := Some ("API request failed: " +:+ msg);
                       p_videos := []; p_rai := None |})
      | inr json =>
          if r_done json then
            match r_error json with
            | Some err => Some (n', {| p_done := true; p_error := Some err;
                                       p_videos := []; p_rai := None |})
            | None =>
                Some (n', {| p_done := true; p_error := None;
                             p_videos :=
                               default [] (videos
                                 (default {| videos := None;
                                             raiMediaFilteredCount := None |}
                                          (r_response json)));
                             p_rai :=
                               Some (default 0 (raiMediaFilteredCount
                                 (default {| videos := None;
                                             raiMediaFilteredCount := None |}
                                          (r_response json)))) |})
            end
          else poll_loop remote fuel endpoint operation_name start_time
                 max_wait_time
                 {| clock := clock n + Z.of_N (latency reply) + 5000;
                    calls := calls n ++ [(clock n, req)] |}
      end
    else Some (n, timed_out).
Proof.
  cbn [poll_loop]. unfold _request, req, endpoint, status_request, sleep.
  destruct (clock n - start_time <? 1000 * max_wait_time)%Z; [|reflexivity].
  cbv zeta. destruct (outcome _) as [msg|json]; [reflexivity|].
  destruct (r_done json); [reflexivity|]. cbn [clock calls].
  f_equal; f_equal; lia.
Qed.

(** After [k] replies that are not done, all asked for within the budget,
    [poll_operation] is the loop taken up at the next call. *)
Lemma poll_operation_after_pending (k : nat) (n : Net) :
  (forall i, (i < k)%nat ->
             reports_pending (remote (length (calls n) + i)%nat req)) ->
  issue_time remote req (length (calls n)) (clock n) k - clock n
  < 1000 * max_wait_time ->
  exists fuel,
    poll_loop remote (S fuel) endpoint operation_name (clock n) max_wait_time
      {| clock := issue_time remote req (length (calls n)) (clock n) k;
         calls := calls n ++ status_calls remote req (length (calls n)) (clock n) k |}
    = Some (poll_operation self remote operation_name model max_wait_time n).
Proof.
  intros Hpend Hbudget.
  pose proof (poll_loop_total self remote operation_name model max_wait_time n)
    as Htotal.
  pose proof (issue_time_lower self remote operation_name model
                (length (calls n)) (clock n) k) as Hlow.
  fold req in Hlow.
  assert (Hk : (S k <= poll_fuel max_wait_time)%nat).
  { unfold poll_fuel.
    destruct (Z.le_gt_cases 0 max_wait_time) as [H|H]; [|lia].
    pose proof (Z.div_mod max_wait_time 5 ltac:(lia)).
    pose proof (Z.mod_pos_bound max_wait_time 5 ltac:(lia)).
    assert (0 <= max_wait_time / 5) by (apply Z.div_pos; lia). lia. }
  exists (poll_fuel max_wait_time - S k)%nat.
  replace (poll_fuel max_wait_time)
    with (k + S (poll_fuel max_wait_time - S k))%nat in Htotal by lia.
  rewrite (poll_loop_pending_run self remote operation_name model) in Htotal.
  - exact Htotal.
  - intros i Hi.
    pose proof (issue_time_mono self remote operation_name model
                  (length (calls n)) (clock n) i k ltac:(lia)) as Hm.
    fold req in Hm. fold req. lia.
  - exact Hpend.
Qed.

(** X15. A call that raises ends the poll: after [k] replies that are not done,
    if the next call, issued within the budget, raises, the result is done
    with the error "API request failed: " followed by the exception's text
    and no video, and that call was the last: [k + 1] status calls in all. *)
Theorem poll_stops_at_failed_call (k : nat) (msg : string) (n : Net) :
  let n0 := length (calls n) in
  let result := poll_operation self remote operation_name model max_wait_time n in
  (forall i, (i < k)%nat -> reports_pending (remote (n0 + i)%nat req)) ->
  reports_failure (remote (n0 + k)%nat req) msg ->
  issue_time remote req n0 (clock n) k - clock n < 1000 * max_wait_time ->
  snd result = {| p_done := true;
                  p_error := Some ("API request failed: " +:+ msg);
                  p_videos := []; p_rai := None |}
  /\ calls (fst result)
     = (calls n ++ status_calls remote req n0 (clock n) (S k))%list.
Proof.
  intros n0 result Hpend Hfail Hbudget.
  destruct (poll_operation_after_pending k n Hpend Hbudget) as [fuel Hrun].
  fold n0 result in Hrun. rewrite poll_loop_step in Hrun. cbn [clock calls] in Hrun.
  destruct (Z.ltb_spec (issue_time remote req n0 (clock n) k - clock n)
              (1000 * max_wait_time)); [|lia].
  unfold status_calls at 1 2 in Hrun.
  rewrite length_app, length_map, length_seq in Hrun. fold n0 in Hrun.
  unfold reports_failure in Hfail. cbv zeta in Hrun. rewrite Hfail in Hrun.
  injection Hrun as <-. cbn [fst snd calls]. split; [reflexivity|].
  rewrite <- app_assoc. f_equal.
  unfold status_calls. now rewrite (seq_S k), map_app.
Qed.

(** X16. An error reported by the remote ends the poll: after [k] replies that
    are not done, if the next reply, asked for within the budget, is done and
    carries an error, the result is done with that error and no video,
    whatever response the reply carries besides. *)
Theorem poll_stops_at_remote_error (k : nat) (err : string) (n : Net) :
  let n0 := length (calls n) in
  let result := poll_operation self remote operation_name model max_wait_time n in
  (forall i, (i < k)%nat -> reports_pending (remote (n0 + i)%nat req)) ->
  reports_error (remote (n0 + k)%nat req) err ->
  issue_time remote req n0 (clock n) k - clock n < 1000 * max_wait_time ->
  snd result = {| p_done := true; p_error := Some err;
                  p_videos := []; p_rai := None |}
  /\ calls (fst result)
     = (calls n ++ status_calls remote req n0 (clock n) (S k))%list.
Proof.
  intros n0 result Hpend (json & Hout & Hdone & Herr) Hbudget.
  destruct (poll_operation_after_pending k n Hpend Hbudget) as [fuel Hrun].
  fold n0 result in Hrun. rewrite poll_loop_step in Hrun. cbn [clock calls] in Hrun.
  destruct (Z.ltb_spec (issue_time remote req n0 (clock n) k - clock n)
              (1000 * max_wait_time)); [|lia].
  unfold status_calls at 1 2 in Hrun.
  rewrite length_app, length_map, length_seq in Hrun. fold n0 in Hrun.
  cbv zeta in Hrun. rewrite Hout, Hdone, Herr in Hrun.
  injection Hrun as <-. cbn [fst snd calls]. split; [reflexivity|].
  rewrite <- app_assoc. f_equal.
  unfold status_calls. now rewrite (seq_S k), map_app.
Qed.

Lemma poll_loop_shape (fuel : nat) :
  forall (start_time : Z) (n n' : Net) (r : PollResult),
    poll_loop remote fuel endpoint operation_name start_time max_wait_time n
    = Some (n', r) ->
    poll_shape r.
Proof.
  induction fuel as [|fuel IH]; intros start_time n n' r H; [discriminate H|].
  rewrite poll_loop_step in H.
  destruct (clock n - start_time <? 1000 * max_wait_time)%Z.
  - cbv zeta in H. destruct (outcome _) as [msg|json].
    + injection H as _ <-. unfold poll_shape. cbn. intuition congruence.
    + destruct (r_done json); [|now apply IH in H].
      destruct (r_error json); injection H as _ <-; unfold poll_shape; cbn;
        intuition congruence.
  - injection H as _ <-. unfold poll_shape. cbn. intuition congruence.
Qed.

(** X17. Whatever the remote does, a result of [poll_operation] that is not done
    is the timed-out one, a result without error is done, and a result with
    a video is done and without error. *)
Theorem poll_result_shape (n : Net) :
  poll_shape (snd (poll_operation self remote operation_name model
                     max_wait_time n)).
Proof.
  pose proof (poll_loop_total self remote operation_name model max_wait_time n)
    as Htotal.
  destruct (poll_operation self remote operation_name model max_wait_time n)
    as [n' r].
  exact (poll_loop_shape _ _ _ _ _ Htotal).
Qed.

Lemma poll_operation_shape (n n' : Net) (r : PollResult) :
  poll_operation self remote operation_name model max_wait_time n = (n', r) ->
  poll_shape r.
Proof.
  intros H.
  pose proof (poll_loop_total self remote operation_name model max_wait_time n)
    as Htotal.
  rewrite H in Htotal. exact (poll_loop_shape _ _ _ _ _ Htotal).
Qed.

Lemma poll_loop_calls (fuel : nat) :
  forall (start_time : Z) (n n' : Net) (r : PollResult),
    poll_loop remote fuel endpoint operation_name start_time max_wait_time n
    = Some (n', r) ->
    exists added,
      calls n' = (calls n ++ added)%list
      /\ clock n <= clock n'
      /\ Forall (fun e => snd e = req /\ clock n <= fst e
                          /\ fst e - start_time < 1000 * max_wait_time) added
      /\ (added = []
          \/ 5000 * (Z.of_nat (length added) - 1)
             < 1000 * max_wait_time - (clock n - start_time)).
Proof.
  induction fuel as [|fuel IH]; intros start_time n n' r H; [discriminate H|].
  rewrite poll_loop_step in H.
  destruct (Z.ltb_spec (clock n - start_time) (1000 * max_wait_time)) as [Hlt|Hge].
  - cbv zeta in H.
    assert (Hone : forall n1 r1,
               n1 = {| clock := clock n
                                 + Z.of_N (latency (remote (length (calls n)) req));
                       calls := calls n ++ [(clock n, req)] |} ->
               Some (n1, r1) = Some (n', r) ->
               exists added,
                 calls n' = (calls n ++ added)%list
                 /\ clock n <= clock n'
                 /\ Forall (fun e => snd e = req /\ clock n <= fst e
                                     /\ fst e - start_time < 1000 * max_wait_time)
                           added
                 /\ (added = []
                     \/ 5000 * (Z.of_nat (length added) - 1)
                        < 1000 * max_wait_time - (clock n - start_time))).
    { intros n1 r1 -> Heq. injection Heq as <- _.
      exists [(clock n, req)]. cbn [clock calls length].
      repeat split; [lia | | right; lia].
      constructor; [|constructor]. cbn. repeat split; lia. }
    destruct (outcome _) as [msg|json];
      [eapply Hone; [reflexivity | exact H]|].
    destruct (r_done json).
    + destruct (r_error json); (eapply Hone; [reflexivity | exact H]).
    + apply IH in H as (added & Hc & Hclk & Hall & Hlen).
      cbn [clock calls] in *.
      exists ((clock n, req) :: added). repeat split.
      * rewrite Hc, <- app_assoc. reflexivity.
      * lia.
      * constructor; [cbn; repeat split; lia|].
        eapply Forall_impl; [exact Hall|]. cbn. intros e (? & ? & ?).
        repeat split; [assumption | lia | assumption].
      * right. cbn [length]. destruct Hlen as [->|Hlen]; [cbn; lia | lia].
  - injection H as <- _. exists []. rewrite app_nil_r.
    repeat split; [lia | constructor | now left].
Qed.

(** X18. Whatever the remote does, [poll_operation] only adds status calls to
    the log, each issued within the budget counted from the start of the
    poll, at most one per five seconds of budget (rounded up), none at all
    for a budget that is not positive; and the clock never goes back. *)
Theorem poll_calls_within_budget (n : Net) :
  let result := poll_operation self remote operation_name model max_wait_time n in
  exists added,
    calls (fst result) = (calls n ++ added)%list
    /\ clock n <= clock (fst result)
    /\ Forall (fun e => snd e = req /\ clock n <= fst e
                        /\ fst e - clock n < 1000 * max_wait_time) added
    /\ Z.of_nat (length added) <= Z.max 0 ((max_wait_time + 4) / 5).
Proof.
  intros result.
  pose proof (poll_loop_total self remote operation_name model max_wait_time n)
    as Htotal.
  fold result in Htotal. destruct result as [n' r].
  apply poll_loop_calls in Htotal as (added & Hc & Hclk & Hall & Hlen).
  exists added. cbn [fst]. repeat split; [exact Hc | exact Hclk | exact Hall |].
  destruct Hlen as [->|Hlen]; [cbn; lia|].
  destruct (Z.le_gt_cases max_wait_time 0) as [H|H]; [lia|].
  pose proof (Z.div_mod (max_wait_time + 4) 5 ltac:(lia)).
  pose proof (Z.mod_pos_bound (max_wait_time + 4) 5 ltac:(lia)).
  lia.
Qed.

End ClientFurther.

Lemma poll_stops_at_failed_call_witness :
  snd (Veo.poll_operation Scenario.client Scenario.failing_remote
         "operations/1" "veo-3.1-fast-generate-001" 600 Scenario.idle_net)
  = {| Veo.p_done := true;
       Veo.p_error := Some "API request failed: Read timed out.";
       Veo.p_videos := []; Veo.p_rai := None |}.
Proof.
  pose proof (poll_stops_at_failed_call Scenario.client Scenario.failing_remote
                "operations/1" "veo-3.1-fast-generate-001" 600 1
                "Read timed out." Scenario.idle_net) as H.
  cbv zeta in H. destruct H as [H _].
  - intros i Hi. exists Scenario.running.
    destruct i as [|i]; [split; reflexivity | lia].
  - reflexivity.
  - vm_compute. reflexivity.
  - exact H.
Defined.

Lemma poll_stops_at_remote_error_witness :
  snd (Veo.poll_operation Scenario.client Scenario.refusing_remote
         "operations/1" "veo-3.1-fast-generate-001" 600 Scenario.idle_net)
  = {| Veo.p_done := true;
       Veo.p_error := Some "{'code': 3, 'message': 'filtered'}";
       Veo.p_videos := []; Veo.p_rai := None |}.
Proof.
  pose proof (poll_stops_at_remote_error Scenario.client Scenario.refusing_remote
                "operations/1" "veo-3.1-fast-generate-001" 600 1
                "{'code': 3, 'message': 'filtered'}" Scenario.idle_net) as H.
  cbv zeta in H. destruct H as [H _].
  - intros i Hi. exists Scenario.running.
    destruct i as [|i]; [split; reflexivity | lia].
  - eexists. repeat split; reflexivity.
  - vm_compute. reflexivity.
  - exact H.
Defined.

(** ** Fetching the video, further *)

Section FetchFurther.

Import Veo.

(** X19. A URI "gs://bucket/path" is fetched from that bucket at that path: the
    bucket is what stands before the first slash, the path all that follows,
    provided "gs://" does not occur again after the scheme. What object
    storage raises is raised through. A URI that has no slash left once
    "gs://" is removed is a [ValueError], raised before object storage is
    asked. *)
Theorem gcs_uri_parsed (gcs : Gcs) (bucket path uri : string) :
  Str.contains "/" bucket = false ->
  Str.contains "gs://" (bucket +:+ "/" +:+ path) = false ->
  download_from_gcs gcs ("gs://" +:+ bucket +:+ "/" +:+ path)
  = match gcs bucket path with
    | inl msg => inl (External msg)
    | inr data => inr data
    end
  /\ (Str.contains "/" (Str.remove_all "gs://" uri) = false ->
      download_from_gcs gcs uri
      = inl (ValueError "not enough values to unpack (expected 2, got 1)")).
Proof.
  intros Hbucket Hrest. split.
  - unfold download_from_gcs.
    change (Str.remove_all "gs://" ("gs://" +:+ bucket +:+ "/" +:+ path))
      with (Str.remove_all "gs://" (bucket +:+ "/" +:+ path)).
    rewrite (remove_all_absent _ _ Hrest).
    now rewrite (split_once_first _ _ Hbucket).
  - intros Hnone. unfold download_from_gcs.
    now rewrite (split_once_none _ Hnone).
Qed.

Lemma a2b_loop_significant (s : string) :
  forall (q : nat) (l : N) (pads : nat) (out : list Byte.byte),
    Base64.a2b_loop s q l pads out
    = Base64.a2b_loop (significant s) q l pads out.
Proof.
  induction s as [|c s IH]; intros q l pads out; [reflexivity|].
  cbn [significant Base64.a2b_loop].
  destruct (Ascii.eqb c "=") eqn:Epad.
  - cbn [Base64.a2b_loop]. rewrite Epad.
    destruct (2 <=? q)%nat; [destruct (4 <=? q + S pads)%nat|];
      first [reflexivity | apply IH].
  - destruct (Base64.a2b c) as [v|] eqn:Ev; [|apply IH].
    cbn [Base64.a2b_loop]. rewrite Epad, Ev.
    destruct q as [|[|[|q]]]; apply IH.
Qed.

(** X20. Line breaks, blanks and any other characters outside the base64
    alphabet do not matter: an inline payload in 7-bit characters whose
    alphabet and padding characters, read in order, are the base64 text of
    [b] is fetched as [b]. *)
Theorem inline_payload_may_be_wrapped (gcs : Gcs) (v : Video)
  (payload : string) (b : list Byte.byte) :
  v !! "gcsUri" = None ->
  v !! "bytesBase64Encoded" = Some payload ->
  Base64.is_ascii payload = true ->
  significant payload = Base64.b64encode b ->
  download_video gcs v = inr b.
Proof.
  intros Hgcs Hinline Hascii Hsig.
  rewrite (download_video_inline gcs v payload Hgcs Hinline).
  unfold Base64.b64decode. rewrite Hascii, a2b_loop_significant, Hsig.
  apply a2b_loop_b64encode.
Qed.

End FetchFurther.

Lemma gcs_uri_parsed_witness :
  Veo.download_from_gcs (fun bucket path => inr [Byte.x01])
    "gs://videos-bucket/2024/clip.mp4"
  = inr [Byte.x01].
Proof.
  destruct (gcs_uri_parsed (fun bucket path => inr [Byte.x01])
              "videos-bucket" "2024/clip.mp4" ""
              eq_refl eq_refl) as [H _].
  exact H.
Defined.

Lemma inline_payload_may_be_wrapped_witness :
  Veo.download_video Scenario.no_gcs
    {[ "bytesBase64Encoded" := "aG
k h/w = =" ]}
  = inr [Byte.x68; Byte.x69; Byte.x21; Byte.xff].
Proof.
  apply (inline_payload_may_be_wrapped Scenario.no_gcs _ "aG
k h/w = =" [Byte.x68; Byte.x69; Byte.x21; Byte.xff]); reflexivity.
Defined.

(** ** The request pipeline, further *)

Section PipelineFurther.

Import Bot.

Lemma run_bind {A B : Type} (tg : TgCall -> option string) (s : Step A)
  (f : A -> Coro B) :
  run tg (bind_step s f)
  = let '(cs, w, r) := run tg s in
    match r with
    | inr a => let '(cs', w', r') := run tg (f a w) in ((cs ++ cs')%list, w', r')
    | inl e => (cs, w, inl e)
    end.
Proof.
  induction s as [w [e|a]|w c k IH]; cbn [bind_step run].
  - reflexivity.
  - now destruct (run tg (f a w)) as [[cs' w'] r'].
  - rewrite IH. destruct (run tg (k (tg c) w)) as [[cs w1] [e|a]];
      [reflexivity|].
    now destruct (run tg (f a w1)) as [[cs' w'] r'].
Qed.

Lemma run_except {A : Type} (tg : TgCall -> option string) (s : Step A)
  (h : exn -> Coro A) :
  run tg (except_step s h)
  = let '(cs, w, r) := run tg s in
    match r with
    | inr a => (cs, w, inr a)
    | inl e => let '(cs', w', r') := run tg (h e w) in ((cs ++ cs')%list, w', r')
    end.
Proof.
  induction s as [w [e|a]|w c k IH]; cbn [except_step run].
  - now destruct (run tg (h e w)) as [[cs' w'] r'].
  - reflexivity.
  - rewrite IH. destruct (run tg (k (tg c) w)) as [[cs w1] [e|a]];
      [|reflexivity].
    now destruct (run tg (h e w1)) as [[cs' w'] r'].
Qed.

Lemma run_finally {A : Type} (tg : TgCall -> option string) (s : Step A)
  (fin : World -> World) :
  run tg (finally_step s fin)
  = let '(cs, w, r) := run tg s in (cs, fin w, r).
Proof.
  induction s as [w r|w c k IH]; cbn [finally_step run]; [reflexivity|].
  rewrite IH. now destruct (run tg (k (tg c) w)) as [[cs w1] r].
Qed.

Lemma run_await (tg : TgCall -> option string) (c : TgCall) (w : World) :
  run tg (await c w)
  = ([c], w, match tg c with
             | None => inr tt
             | Some msg => inl (External msg)
             end).
Proof. unfold await. cbn [run]. now destruct (tg c). Qed.

Lemma take_length (n : nat) (s : string) :
  (String.length (Str.take n s) <= n)%nat.
Proof.
  revert s. induction n as [|n IH]; intros s; [cbn; lia|].
  destruct s as [|c s]; cbn; [lia|]. specialize (IH s). lia.
Qed.

Lemma take_all (n : nat) (s : string) :
  (String.length s <= n)%nat -> Str.take n s = s.
Proof.
  revert s. induction n as [|n IH]; intros s H.
  - destruct s; [reflexivity | cbn in H; lia].
  - destruct s as [|c s]; [reflexivity|]. cbn in *. rewrite IH; [reflexivity|lia].
Qed.

Lemma append_length (a b : string) :
  String.length (a +:+ b) = (String.length a + String.length b)%nat.
Proof.
  induction a as [|c a IH]; [reflexivity|].
  rewrite append_cons. cbn. now rewrite IH.
Qed.

(** X21. The error text shown to the user is the exception's text when that has
    at most 200 characters, and otherwise its first 200 characters and three
    dots: never more than 203 characters. *)
Theorem bounded_error_is_bounded (e : exn) :
  (String.length (bounded_error e) <= 203)%nat
  /\ ((String.length (exn_str e) <= 200)%nat -> bounded_error e = exn_str e)
  /\ ((200 < String.length (exn_str e))%nat ->
      bounded_error e = Str.take 200 (exn_str e) +:+ "...").
Proof.
  unfold bounded_error.
  destruct (Nat.ltb_spec 200 (String.length (exn_str e))) as [Hlong|Hshort].
  - split; [|split; [lia | reflexivity]].
    rewrite append_length. pose proof (take_length 200 (exn_str e)).
    change (String.length "...") with 3%nat. lia.
  - split; [lia | split; [reflexivity | lia]].
Qed.

Lemma strip_white_space (s : string) :
  white_space_only s -> Str.strip s = EmptyString.
Proof.
  unfold white_space_only, Str.strip.
  induction s as [|c s IH]; intros H; [reflexivity|].
  cbn [list_ascii_of_string] in H. apply Forall_cons in H as [Hc Hs].
  cbn [Str.lstrip]. rewrite Hc. now apply IH.
Qed.

(** X22. A message without text, or whose text is white space only (blanks,
    tabs, line breaks, no-break spaces and the like), is answered with a
    request for a prompt and nothing else happens: no record, no remote
    call, whatever the state of the quota. *)
Theorem blank_prompt_is_turned_away (env : Env) (message : Message) (w : World)
  (tg : TgCall -> option string) :
  white_space_only (default "" (text message)) ->
  handle_message env message w
  = await (Answer (if Str.truthy (default "" (text message))
                   then ProvideTextPrompt else SendTextPrompt)) w
  /\ snd (fst (run tg (handle_message env message w))) = w.
Proof.
  intros Hblank. apply strip_white_space in Hblank.
  assert (H : handle_message env message w
              = await (Answer (if Str.truthy (default "" (text message))
                               then ProvideTextPrompt else SendTextPrompt)) w).
  { unfold handle_message. rewrite Hblank.
    now destruct (Str.truthy (default "" (text message))). }
  split; [exact H|]. now rewrite H, run_await.
Qed.

(** An accepted message: the record is created and the handler waits in
    its first answer; from there it goes into the [try] block. *)
Lemma handle_message_accepted (env : Env) (message : Message) (w : World) :
  accepted_in message w ->
  handle_message env message w
  = bind_step (await (Answer GenerationRequested) (with_record message w))
      (fun _ =>
         try_except
           (generation env (Str.strip (default "" (text message)))
              (SettingsDb.get_user_settings (settings w) (from_id message))
              (MessagesDb.last_id (messages w) + 1))
           (on_exception (MessagesDb.last_id (messages w) + 1))).
Proof.
  intros [Hprompt Hquota]. unfold handle_message.
  rewrite (truthy_strip _ Hprompt), Hprompt. cbn [negb].
  unfold bind at 1 2, get_successful_videos_count, get_total_cost.
  cbn [bind_step].
  destruct (Z.leb_spec Config.GLOBAL_VIDEO_QUOTA_LIMIT
              (MessagesDb.get_successful_videos_count (messages w))); [lia|].
  reflexivity.
Qed.

(** The rows once the record a request created is updated. *)
Lemma rows_settled (message : Message) (w : World) (c : option Q) (st : string) :
  ledger_wf (messages w) ->
  MessagesDb.rows
    (MessagesDb.update_message (messages (with_record message w))
       (MessagesDb.last_id (messages w) + 1) None None c (Some st))
  = (MessagesDb.rows (messages w)
     ++ [settled (pending_row message w) st (default 0%Q c)])%list.
Proof.
  intros (_ & Hall & _). unfold MessagesDb.update_message, with_record.
  assert (Hnot : MessagesDb.last_id (messages w) + 1 ∉ ids (messages w)).
  { intros Hin. rewrite Forall_forall in Hall. specialize (Hall _ Hin). lia. }
  destruct c; cbn [messages MessagesDb.rows]; rewrite map_app;
    rewrite (update_rows_absent _ _ _ Hnot); cbn [map pending_row MessagesDb.id];
    rewrite Z.eqb_refl; reflexivity.
Qed.

Lemma generation_submit_fails (env : Env) (prompt : string)
  (us : SettingsDb.UserSettings) (message_id : Z) (w : World)
  (n1 : Veo.Net) (e : exn) :
  Veo.generate_video (veo_client env) (remote env) prompt (SettingsDb.model us)
    (SettingsDb.duration us) (SettingsDb.resolution us) true 1 (net w)
  = (n1, inl e) ->
  generation env prompt us message_id w
  = Done {| settings := settings w; messages := messages w;
            files := files w; net := n1 |} (inl e).
Proof.
  intros H. unfold generation, bind at 1 2, time, generate_video, lift_net.
  cbn [bind_step]. now rewrite H.
Qed.

Lemma run_on_exception (tg : TgCall -> option string) (message_id : Z)
  (e : exn) (w : World) :
  run tg (on_exception message_id e w)
  = ([EditText (ErrorOccurred (bounded_error e))],
     {| settings := settings w;
        messages := MessagesDb.update_message (messages w) message_id
                      None None None (Some "failed");
        files := files w; net := net w |},
     match tg (EditText (ErrorOccurred (bounded_error e))) with
     | None => inr tt
     | Some msg => inl (External msg)
     end).
Proof.
  unfold on_exception, bind, update_message. cbn [bind_step].
  apply run_await.
Qed.

(** X23. When submitting the job raises (the call fails, or the reply names no
    operation), an accepted request ends like this: the user has been sent
    the first notice and then the bounded error text, the ledger has one
    more record, failed and at cost zero, one remote call was made, and
    settings and files are as before. *)
Theorem submit_failure_is_recorded (env : Env) (message : Message) (w : World)
  (tg : TgCall -> option string) (n1 : Veo.Net) (e : exn) :
  let us := SettingsDb.get_user_settings (settings w) (from_id message) in
  let ended := run tg (handle_message env message w) in
  accepted_in message w ->
  ledger_wf (messages w) ->
  tg (Answer GenerationRequested) = None ->
  Veo.generate_video (veo_client env) (remote env)
    (Str.strip (default "" (text message))) (SettingsDb.model us)
    (SettingsDb.duration us) (SettingsDb.resolution us) true 1 (net w)
  = (n1, inl e) ->
  fst (fst ended)
  = [Answer GenerationRequested; EditText (ErrorOccurred (bounded_error e))]
  /\ MessagesDb.rows (messages (snd (fst ended)))
     = (MessagesDb.rows (messages w)
        ++ [settled (pending_row message w) "failed" 0%Q])%list
  /\ settings (snd (fst ended)) = settings w
  /\ files (snd (fst ended)) = files w
  /\ net (snd (fst ended)) = n1
  /\ length (Veo.calls n1) = S (length (Veo.calls (net w))).
Proof.
  intros us ended Hacc Hwf Htg Hsubmit. subst ended.
  rewrite (handle_message_accepted env message w Hacc).
  rewrite run_bind, run_await, Htg. unfold try_except.
  rewrite run_except.
  rewrite (generation_submit_fails env _ _ _ (with_record message w) n1 e Hsubmit).
  cbn [run]. rewrite run_on_exception. cbn [fst snd settings files net messages].
  repeat split.
  - apply (rows_settled message w None "failed" Hwf).
  - unfold Veo.generate_video, Veo._request in Hsubmit.
    destruct (Veo.outcome _) as [msg|json].
    + injection Hsubmit as <- _. cbn. rewrite length_app. cbn. lia.
    + destruct (Veo.r_name json) as [name|]; [destruct (Str.truthy name)|];
        injection Hsubmit as <- ; cbn; rewrite length_app; cbn; lia.
Qed.

Lemma run_bind_at {A B : Type} (tg : TgCall -> option string) (m : Coro A)
  (f : A -> Coro B) (w : World) :
  run tg (bind m f w)
  = let '(cs, w1, r) := run tg (m w) in
    match r with
    | inr a => let '(cs', w', r') := run tg (f a w1) in ((cs ++ cs')%list, w', r')
    | inl e => (cs, w1, inl e)
    end.
Proof. unfold bind. apply run_bind. Qed.

(** X24. When every step works (the job is submitted, polling ends without error
    with at least one video, [calculate_cost] returns a cost for the user's
    model and duration, the first video is fetched, the temporary file is
    created, written and unlinked, and every call to the chat platform
    succeeds), an accepted request ends like this: the user has been sent
    four notices and the video, whose caption shows that cost, the status
    message is deleted, the ledger has one more record, successful, at
    that cost; the temporary file is gone; only the first video was used. *)
Theorem delivery_is_recorded (env : Env) (message : Message) (w : World)
  (tg : TgCall -> option string) (n1 n2 : Veo.Net) (op : Veo.Operation)
  (pr : Veo.PollResult) (v : Veo.Video) (others : list Veo.Video)
  (cost : F64.float) (data : list Byte.byte) (path : string) :
  let us := SettingsDb.get_user_settings (settings w) (from_id message) in
  let ended := run tg (handle_message env message w) in
  accepted_in message w ->
  ledger_wf (messages w) ->
  (forall c, tg c = None) ->
  Veo.generate_video (veo_client env) (remote env)
    (Str.strip (default "" (text message))) (SettingsDb.model us)
    (SettingsDb.duration us) (SettingsDb.resolution us) true 1 (net w)
  = (n1, inr op) ->
  Veo.poll_operation (veo_client env) (remote env) (Veo.operation_name op)
    (SettingsDb.model us) 600 n1 = (n2, pr) ->
  Veo.p_error pr = None ->
  Veo.p_videos pr = v :: others ->
  calculate_cost (SettingsDb.model us) (SettingsDb.duration us) = inr cost ->
  Veo.download_video (gcs env) v = inr data ->
  Storage.mkstemp (fs env) ".mp4" = inr path ->
  Storage.write_error (fs env) = None ->
  Storage.unlink_error (fs env) = None ->
  (exists caption,
      fst (fst ended)
      = [Answer GenerationRequested; EditText GenerationStarted;
         EditText DownloadingVideo; EditText UploadingVideo;
         AnswerVideo path caption; Delete]
      /\ c_cost caption = cost)
  /\ MessagesDb.rows (messages (snd (fst ended)))
     = (MessagesDb.rows (messages w)
        ++ [settled (pending_row message w) "success" (F64.value cost)])%list
  /\ files (snd (fst ended)) = delete path (files w)
  /\ settings (snd (fst ended)) = settings w
  /\ net (snd (fst ended)) = n2
  /\ snd ended = inr tt.
Proof.
  intros us ended Hacc Hwf Htg Hsubmit Hpoll Herr Hvid Hcost Hdown Hmk Hwr Hun.
  subst ended.
  assert (Hdone : Veo.p_done pr = true).
  { destruct (poll_operation_shape _ _ _ _ _ _ _ _ Hpoll) as (_ & Hd & _).
    exact (Hd Herr). }
  remember (run tg (handle_message env message w)) as R eqn:E.
  rewrite (handle_message_accepted env message w Hacc) in E.
  rewrite run_bind, run_await, Htg in E. unfold try_except in E.
  rewrite run_except in E.
  unfold generation in E.
  rewrite run_bind_at in E. unfold time at 1 in E. cbn [run] in E.
  rewrite run_bind_at in E. unfold generate_video at 1, lift_net in E.
  cbn [net with_record] in E. fold us in E. rewrite Hsubmit in E. cbn [run] in E.
  rewrite run_bind_at, run_await, Htg in E.
  rewrite run_bind_at in E. unfold poll_operation at 1, lift_net in E.
  cbn [net] in E. rewrite Hpoll in E. cbn [run] in E.
  rewrite Herr, Hdone, Hvid in E.
  cbn [default from_option id Str.truthy negb] in E.
  rewrite run_bind_at in E. unfold time at 1 in E. cbn [run] in E.
  rewrite run_bind_at in E. unfold of_result at 1 in E. fold us in E.
  rewrite Hcost in E. cbn [run] in E.
  rewrite run_bind_at, run_await, Htg in E.
  rewrite run_bind_at in E. unfold download_video at 1 in E.
  rewrite Hdown in E. cbn [run] in E.
  rewrite run_bind_at in E.
  unfold create_temp_file at 1, lift_files, Storage.create_temp_file in E.
  rewrite Hmk in E. cbn [run] in E.
  rewrite run_bind_at in E.
  unfold write_bytes at 1, lift_files, Storage.write_bytes in E.
  rewrite Hwr in E. cbn [run] in E.
  rewrite run_bind_at, run_await, Htg in E.
  rewrite run_bind_at in E. unfold try_finally in E.
  rewrite run_finally, run_await, Htg in E.
  rewrite run_bind_at in E. unfold update_message at 1 in E. cbn [run] in E.
  rewrite run_await, Htg in E.
  cbn [fst snd app settings messages files net cleanup] in E.
  subst R. cbn [fst snd settings messages files net].
  split; [eexists; split; reflexivity|].
  split; [apply (rows_settled message w (Some _) "success" Hwf)|].
  split; [|repeat split].
  unfold Storage.cleanup. cbn [files with_record].
  rewrite lookup_insert_eq, Hun.
  now rewrite !delete_insert_eq.
Qed.

(** *** What a request keeps to, under any interleaving *)

Lemma runs_bind {A B : Type} (Y : TgCall -> Prop) (R : World -> World -> Prop)
  (Q1 : exn + A -> Prop) (Q2 : exn + B -> Prop) (w0 : World) (s : Step A)
  (f : A -> Coro B) :
  Runs Y R Q1 w0 s ->
  (forall e, Q1 (inl e) -> Q2 (inl e)) ->
  (forall a w1 w, Q1 (inr a) -> R w1 w -> Runs Y R Q2 w1 (f a w)) ->
  Runs Y R Q2 w0 (bind_step s f).
Proof.
  intros Hs Hexn Hf. induction Hs as [w0 w [e|a] HR HQ|w0 w c k HR HY Hk IH];
    cbn [bind_step].
  - constructor; auto.
  - now apply Hf.
  - constructor; auto.
Qed.

Lemma runs_except {A : Type} (Y : TgCall -> Prop) (R : World -> World -> Prop)
  (Q1 Q2 : exn + A -> Prop) (w0 : World) (s : Step A) (h : exn -> Coro A) :
  Runs Y R Q1 w0 s ->
  (forall a, Q1 (inr a) -> Q2 (inr a)) ->
  (forall e w1 w, Q1 (inl e) -> R w1 w -> Runs Y R Q2 w1 (h e w)) ->
  Runs Y R Q2 w0 (except_step s h).
Proof.
  intros Hs Hval Hh. induction Hs as [w0 w [e|a] HR HQ|w0 w c k HR HY Hk IH];
    cbn [except_step].
  - now apply Hh.
  - constructor; auto.
  - constructor; auto.
Qed.

Lemma runs_finally {A : Type} (Y : TgCall -> Prop) (R : World -> World -> Prop)
  (Q : exn + A -> Prop) (w0 : World) (s : Step A) (fin : World -> World) :
  Runs Y R Q w0 s ->
  (forall w1 w, R w1 w -> R w1 (fin w)) ->
  Runs Y R Q w0 (finally_step s fin).
Proof.
  intros Hs Hfin. induction Hs as [w0 w r HR HQ|w0 w c k HR HY Hk IH];
    cbn [finally_step]; constructor; auto.
Qed.

Lemma runs_await (Y : TgCall -> Prop) (R : World -> World -> Prop)
  (Q : exn + unit -> Prop) (w0 w : World) (c : TgCall) :
  (forall w', R w' w') -> R w0 w -> Y c -> (forall r, Q r) ->
  Runs Y R Q w0 (await c w).
Proof.
  intros Hrefl HR HY HQ. unfold await. constructor; auto.
  intros [msg|] w'; constructor; auto.
Qed.

(** Run on its own, a coroutine that keeps to [Y], [R] and [Q] has awaited
    calls in [Y] only, ends in a world [R]-related to the first, with a
    result in [Q]. *)
Lemma runs_run {A : Type} (Y : TgCall -> Prop) (R : World -> World -> Prop)
  (Q : exn + A -> Prop) (tg : TgCall -> option string) (w0 : World)
  (s : Step A) :
  (forall w1 w2 w3, R w1 w2 -> R w2 w3 -> R w1 w3) ->
  Runs Y R Q w0 s ->
  Forall Y (fst (fst (run tg s))) /\ R w0 (snd (fst (run tg s)))
  /\ Q (snd (run tg s)).
Proof.
  intros Htrans Hs. induction Hs as [w0 w r HR HQ|w0 w c k HR HY Hk IH];
    cbn [run].
  - repeat split; [constructor | exact HR | exact HQ].
  - specialize (IH (tg c) w).
    destruct (run tg (k (tg c) w)) as [[cs w'] r]. cbn [fst snd] in *.
    destruct IH as (Hcs & HR' & HQ). repeat split.
    + now constructor.
    + now apply (Htrans _ _ _ HR).
    + exact HQ.
Qed.

Lemma settled_settled (r : MessagesDb.Row) (st st' : string) (c c' : Q) :
  settled (settled r st c) st' c' = settled r st' c'.
Proof. reflexivity. Qed.

Lemma settled_same (r : MessagesDb.Row) :
  settled r (MessagesDb.status r) (MessagesDb.cost r) = r.
Proof. now destruct r. Qed.

Lemma same_but_outcome_refl (message_id : Z) (r : MessagesDb.Row) :
  same_but_outcome message_id r r.
Proof.
  split; [|reflexivity].
  exists (MessagesDb.status r), (MessagesDb.cost r). now rewrite settled_same.
Qed.

Lemma same_but_outcome_trans (message_id : Z) (r1 r2 r3 : MessagesDb.Row) :
  same_but_outcome message_id r1 r2 -> same_but_outcome message_id r2 r3 ->
  same_but_outcome message_id r1 r3.
Proof.
  intros [(st & c & ->) H12] [(st' & c' & ->) H23]. split.
  - exists st', c'. apply settled_settled.
  - intros Hne. rewrite <- (H12 Hne) at 2. apply H23. exact Hne.
Qed.

Lemma own_record_refl (message_id : Z) (w : World) : own_record message_id w w.
Proof.
  repeat split. induction (MessagesDb.rows (messages w)); constructor;
    [apply same_but_outcome_refl | assumption].
Qed.

Lemma own_record_trans (message_id : Z) (w1 w2 w3 : World) :
  own_record message_id w1 w2 -> own_record message_id w2 w3 ->
  own_record message_id w1 w3.
Proof.
  intros (Hs & Hl & Hr) (Hs' & Hl' & Hr'). repeat split; [congruence..|].
  revert Hr'. generalize (MessagesDb.rows (messages w3)).
  induction Hr as [|r1 r2 l1 l2 H12 _ IH]; intros l3 Hr'.
  - inversion Hr'. constructor.
  - inversion Hr' as [|? r3 ? l3' H23 Hrest]; subst. constructor.
    + now apply (same_but_outcome_trans _ _ r2).
    + now apply IH.
Qed.

(** A step that leaves settings and ledger alone keeps [own_record]. *)
Lemma own_record_elsewhere (message_id : Z) (w0 w w' : World) :
  own_record message_id w0 w ->
  settings w' = settings w -> messages w' = messages w ->
  own_record message_id w0 w'.
Proof. unfold own_record. intros (? & ? & ?) -> ->. auto. Qed.

(** The updates the handler makes keep [own_record]. *)
Lemma own_record_update (message_id : Z) (w0 w : World) (c : option Q)
  (st : string) :
  own_record message_id w0 w ->
  own_record message_id w0
    {| settings := settings w;
       messages := MessagesDb.update_message (messages w) message_id
                     None None c (Some st);
       files := files w; net := net w |}.
Proof.
  intros H. apply (own_record_trans _ _ w); [exact H|].
  unfold own_record. cbn [settings messages].
  split; [reflexivity|]. split; [apply ids_update|].
  unfold MessagesDb.update_message.
  assert (Hrows : forall l,
             Forall2 (same_but_outcome message_id) l
               (map (fun r => if Z.eqb (MessagesDb.id r) message_id
                              then MessagesDb.apply_updates None None c (Some st) r
                              else r) l)).
  { intros l. induction l as [|r l IH]; cbn [map]; constructor; [|exact IH].
    destruct (Z.eqb_spec (MessagesDb.id r) message_id) as [E|Hne].
    - split; [|intros Hne; contradiction].
      exists st, (default (MessagesDb.cost r) c). reflexivity.
    - apply same_but_outcome_refl. }
  destruct c; cbn [MessagesDb.rows]; apply Hrows.
Qed.

Lemma runs_bind_at {A B : Type} (Y : TgCall -> Prop)
  (R : World -> World -> Prop) (Q1 : exn + A -> Prop) (Q2 : exn + B -> Prop)
  (w0 w : World) (m : Coro A) (f : A -> Coro B) :
  Runs Y R Q1 w0 (m w) ->
  (forall e, Q1 (inl e) -> Q2 (inl e)) ->
  (forall a w1 w', Q1 (inr a) -> R w1 w' -> Runs Y R Q2 w1 (f a w')) ->
  Runs Y R Q2 w0 (bind m f w).
Proof. unfold bind. apply runs_bind. Qed.

Section Keeping.

Variable env : Env.
Variable message_id : Z.

Let Y := not_the_timeout_notice.
Let R := own_record message_id.

Lemma keeps_await (w0 w : World) (c : TgCall) :
  R w0 w -> Y c -> Runs Y R (fun _ => True) w0 (await c w).
Proof.
  intros HR HY. apply runs_await; auto. intros w'. apply own_record_refl.
Qed.

Lemma keeps_update (w0 w : World) (c : option Q) (st : string) :
  R w0 w ->
  Runs Y R (fun _ => True) w0 (update_message message_id c (Some st) w).
Proof.
  intros HR. unfold update_message. constructor; [|trivial].
  now apply own_record_update.
Qed.

Lemma keeps_time (w0 w : World) :
  R w0 w -> Runs Y R (fun _ => True) w0 (time w).
Proof. intros HR. unfold time. now constructor. Qed.

Lemma keeps_of_result {A : Type} (w0 w : World) (r : exn + A) :
  R w0 w -> Runs Y R (fun _ => True) w0 (of_result r w).
Proof. intros HR. unfold of_result. now constructor. Qed.

Lemma keeps_generate (w0 w : World) (prompt model : string) (d : Z)
  (res : string) (audio : bool) (samples : Z) :
  R w0 w ->
  Runs Y R (fun _ => True) w0 (generate_video env prompt model d res audio samples w).
Proof.
  intros HR. unfold generate_video, lift_net.
  destruct (Veo.generate_video _ _ _ _ _ _ _ _ _) as [n r].
  constructor; [|trivial]. now apply (own_record_elsewhere _ _ w).
Qed.

Lemma keeps_poll (w0 w : World) (op model : string) (budget : Z) :
  R w0 w -> Runs Y R polled w0 (poll_operation env op model budget w).
Proof.
  intros HR. unfold poll_operation, lift_net.
  destruct (Veo.poll_operation _ _ _ _ _ _) as [n r] eqn:E.
  constructor; [now apply (own_record_elsewhere _ _ w)|].
  cbn. exact (poll_operation_shape _ _ _ _ _ _ _ _ E).
Qed.

Lemma keeps_download (w0 w : World) (v : Veo.Video) :
  R w0 w -> Runs Y R (fun _ => True) w0 (download_video env v w).
Proof. intros HR. unfold download_video. now constructor. Qed.

Lemma keeps_create_temp_file (w0 w : World) (suffix : string) :
  R w0 w -> Runs Y R (fun _ => True) w0 (create_temp_file env suffix w).
Proof.
  intros HR. unfold create_temp_file, lift_files.
  destruct (Storage.create_temp_file _ _ _) as [fl r].
  constructor; [|trivial]. now apply (own_record_elsewhere _ _ w).
Qed.

Lemma keeps_write_bytes (w0 w : World) (path : string) (data : list Byte.byte) :
  R w0 w -> Runs Y R (fun _ => True) w0 (write_bytes env path data w).
Proof.
  intros HR. unfold write_bytes, lift_files.
  destruct (Storage.write_bytes _ _ _ _) as [fl r].
  constructor; [|trivial]. now apply (own_record_elsewhere _ _ w).
Qed.

Ltac next_step lemma :=
  eapply runs_bind_at;
  [ apply lemma; first [assumption | intros X; discriminate X]
  | trivial
  | let a := fresh "a" in let w1 := fresh "w" in let w2 := fresh "w" in
    let HQ := fresh "HQ" in let HR := fresh "HR" in
    intros a w1 w2 HQ HR ].

Ltac failed_with notice :=
  eapply runs_bind_at;
  [ apply keeps_update; assumption
  | trivial
  | intros ? ? ? _ ?; apply keeps_await;
    [assumption | intros X; discriminate X] ].

(** The [try] block keeps to the request's own record and never awaits the
    notice of line 128. *)
Lemma generation_keeps (prompt : string) (us : SettingsDb.UserSettings)
  (w0 w : World) :
  R w0 w ->
  Runs Y R (fun _ => True) w0 (generation env prompt us message_id w).
Proof.
  intros HR0. unfold generation.
  next_step keeps_time.
  next_step keeps_generate.
  eapply runs_bind_at;
    [apply keeps_await; [assumption | intros X; discriminate X] | trivial |].
  intros _ ? ? _ Ka.
  eapply runs_bind_at; [apply keeps_poll; exact Ka | trivial |].
  intros pr ? ? (Hnot & _ & _) Kb.
  destruct (Str.truthy (default "" (Veo.p_error pr))) eqn:Eerr.
  { failed_with GenerationFailed. }
  destruct (Veo.p_done pr) eqn:Edone; cbn [negb].
  2:{ rewrite (Hnot eq_refl) in Eerr. discriminate Eerr. }
  destruct (Veo.p_videos pr) as [|video_data others].
  { failed_with NoVideosGenerated. }
  next_step keeps_time.
  next_step (@keeps_of_result F64.float).
  eapply runs_bind_at;
    [apply keeps_await; [assumption | intros X; discriminate X] | trivial |].
  intros _ ? ? _ Kc.
  next_step keeps_download.
  next_step keeps_create_temp_file.
  next_step keeps_write_bytes.
  eapply runs_bind_at;
    [apply keeps_await; [assumption | intros X; discriminate X] | trivial |].
  intros _ ? ? _ Kd.
  eapply runs_bind_at.
  - unfold try_finally. apply runs_finally.
    + apply keeps_await; [exact Kd | intros X; discriminate X].
    + intros wa wb Hab. unfold cleanup.
      now apply (own_record_elsewhere _ _ wb).
  - trivial.
  - intros _ ? ? _ Ke.
    eapply runs_bind_at; [apply keeps_update; exact Ke | trivial |].
    intros _ ? ? _ Kf.
    apply keeps_await; [exact Kf | intros X; discriminate X].
Qed.

(** So does the [try] block together with its [except] clause. *)
Lemma guarded_generation_keeps (prompt : string) (us : SettingsDb.UserSettings)
  (w0 w : World) :
  R w0 w ->
  Runs Y R (fun _ => True) w0
    (try_except (generation env prompt us message_id)
       (on_exception message_id) w).
Proof.
  intros HR. unfold try_except.
  eapply runs_except; [now apply generation_keeps | trivial |].
  intros e w1 w2 _ HR1. unfold on_exception.
  eapply runs_bind_at; [apply keeps_update; exact HR1 | trivial |].
  intros _ w3 w4 _ HR3. apply keeps_await; [exact HR3 | intros X; discriminate X].
Qed.

End Keeping.

Lemma runs_weaken {A : Type} (Y : TgCall -> Prop)
  (R R' : World -> World -> Prop) (Q Q' : exn + A -> Prop) (w0 : World)
  (s : Step A) :
  Runs Y R Q w0 s ->
  (forall a b, R a b -> R' a b) -> (forall r, Q r -> Q' r) ->
  Runs Y R' Q' w0 s.
Proof.
  intros Hs HR HQ.
  induction Hs as [w0 w r ? ?|w0 w c k ? HY _ IH]; constructor; auto.
Qed.

Lemma outcome_only_refl (r : MessagesDb.Row) : outcome_only r r.
Proof.
  exists (MessagesDb.status r), (MessagesDb.cost r). now rewrite settled_same.
Qed.

Lemma outcome_only_all (l : list MessagesDb.Row) : Forall2 outcome_only l l.
Proof. induction l; constructor; auto using outcome_only_refl. Qed.

Lemma outcome_only_trans (l1 l2 l3 : list MessagesDb.Row) :
  Forall2 outcome_only l1 l2 -> Forall2 outcome_only l2 l3 ->
  Forall2 outcome_only l1 l3.
Proof.
  intros H12. revert l3.
  induction H12 as [|r1 r2 l1 l2 (st & c & ->) _ IH]; intros l3 H23;
    inversion H23 as [|? r3 ? l3' (st' & c' & ->) H23']; subst; constructor.
  - exists st', c'. apply settled_settled.
  - now apply IH.
Qed.

Lemma ledger_grows_refl (w : World) : ledger_grows w w.
Proof.
  split; [reflexivity|]. exists (MessagesDb.rows (messages w)), [].
  split; [now rewrite app_nil_r | apply outcome_only_all].
Qed.

Lemma ledger_grows_trans (w1 w2 w3 : World) :
  ledger_grows w1 w2 -> ledger_grows w2 w3 -> ledger_grows w1 w3.
Proof.
  intros (Hs & old & more & Hrows & Hold) (Hs' & old' & more' & Hrows' & Hold').
  split; [congruence|].
  rewrite Hrows in Hold'.
  apply Forall2_app_inv_l in Hold' as (a & b & Ha & Hb & ->).
  exists a, (b ++ more')%list. split.
  - now rewrite Hrows', <- app_assoc.
  - now apply (outcome_only_trans _ old).
Qed.

Lemma own_record_grows (message_id : Z) (w0 w : World) :
  own_record message_id w0 w -> ledger_grows w0 w.
Proof.
  intros (Hs & _ & Hrows). split; [exact Hs|].
  exists (MessagesDb.rows (messages w)), []. split; [now rewrite app_nil_r|].
  eapply Forall2_impl; [exact Hrows|]. now intros r r' [H _].
Qed.

(** A handler started in any world: it never awaits the notice of line 128;
    it keeps the settings, and the ledger but for records added and the
    status and cost of records. *)
Lemma handle_message_keeps (env : Env) (message : Message) (w : World) :
  Runs not_the_timeout_notice ledger_grows (fun _ => True) w
    (handle_message env message w).
Proof.
  assert (Hawait : forall t,
            Runs not_the_timeout_notice ledger_grows (fun _ => True) w
              (await (Answer t) w)).
  { intros t. apply runs_await; auto using ledger_grows_refl.
    intros X; discriminate X. }
  unfold handle_message.
  destruct (negb (Str.truthy (default "" (text message)))); [apply Hawait|].
  destruct (negb (Str.truthy (Str.strip (default "" (text message)))));
    [apply Hawait|].
  unfold bind at 1 2, get_successful_videos_count, get_total_cost.
  cbn [bind_step].
  destruct (_ <=? _)%Z; [apply Hawait|].
  unfold bind at 1 2 3, get_user_settings, create_message,
    MessagesDb.create_message, await.
  cbn [bind_step].
  constructor.
  - split; [reflexivity|]. cbn [messages MessagesDb.rows].
    eexists _, _. split; [reflexivity | apply outcome_only_all].
  - intros X; discriminate X.
  - intros [msg|] w'; cbn [bind_step].
    + constructor; [apply ledger_grows_refl | trivial].
    + eapply runs_weaken;
        [ apply (guarded_generation_keeps env
                   (MessagesDb.last_id (messages w) + 1) _ _ w' w'),
                own_record_refl
        | apply own_record_grows | trivial ].
Qed.

Lemma settle_waits_within (Y : TgCall -> Prop) (R : World -> World -> Prop)
  (w0 : World) (s : Step unit)
  (others : list (TgCall * (option string -> World -> Step unit))) :
  Runs Y R (fun _ => True) w0 s ->
  Forall (fun ck => Y (fst ck)
                    /\ forall o w', Runs Y R (fun _ => True) w' (snd ck o w'))
         others ->
  waits_within Y R (settle s others) /\ R w0 (world (settle s others)).
Proof.
  intros Hs Hothers. unfold waits_within.
  destruct Hs as [w0 w r HR _|w0 w c k HR HY Hk]; cbn [settle waiting world].
  - now split.
  - split; [|exact HR]. apply Forall_app. split; [exact Hothers|].
    constructor; [|constructor]. now split.
Qed.

Lemma step_keeps (l : Loop) (a : Action) :
  waits_within not_the_timeout_notice ledger_grows l ->
  waits_within not_the_timeout_notice ledger_grows (step l a)
  /\ ledger_grows (world l) (world (step l a)).
Proof.
  intros Hl. destruct a as [env message|i o]; cbn [step].
  - apply settle_waits_within; [apply handle_message_keeps | exact Hl].
  - destruct (waiting l !! i) as [[c k]|] eqn:Ei.
    + apply settle_waits_within.
      * unfold waits_within in Hl. rewrite Forall_lookup in Hl.
        destruct (Hl i _ Ei) as [_ Hk]. apply Hk.
      * now apply Forall_delete.
    + split; [exact Hl | apply ledger_grows_refl].
Qed.

Lemma steps_keep (acts : list Action) (l : Loop) :
  waits_within not_the_timeout_notice ledger_grows l ->
  waits_within not_the_timeout_notice ledger_grows (steps l acts)
  /\ ledger_grows (world l) (world (steps l acts)).
Proof.
  unfold steps. revert l. induction acts as [|a acts IH]; intros l Hl;
    cbn [fold_left].
  - split; [exact Hl | apply ledger_grows_refl].
  - destruct (step_keeps l a Hl) as [Hw Hg].
    destruct (IH _ Hw) as [Hw' Hg']. split; [exact Hw'|].
    now apply (ledger_grows_trans _ (world (step l a))).
Qed.

(** X25. The branch of lines 123-129 is dead: however many requests are served
    and however their handlers interleave, no handler ever waits in the
    edit that shows the timed-out notice. A poll that runs out of time
    comes back with an error text, so the branch before it (lines 115-121)
    takes it and the user is shown the failure notice instead. *)
Theorem timed_out_notice_is_never_sent (acts : list Action) (w : World) :
  Forall not_the_timeout_notice
    (Scenario.awaited (steps {| world := w; waiting := [] |} acts)).
Proof.
  destruct (steps_keep acts {| world := w; waiting := [] |}) as [Hw _];
    [constructor|].
  unfold Scenario.awaited. apply Forall_fmap.
  eapply Forall_impl; [exact Hw|]. now intros [c k] [HY _].
Qed.

(** X26. However many requests are served and however their handlers
    interleave, the message handler changes no user's settings, and in the
    ledger removes and reorders nothing: the records that were there are
    still there, in their order, the same but for status and cost, with
    the new records after them. *)
Theorem requests_only_extend_the_ledger (acts : list Action) (w : World) :
  let after := world (steps {| world := w; waiting := [] |} acts) in
  settings after = settings w
  /\ exists old more,
       MessagesDb.rows (messages after) = (old ++ more)%list
       /\ Forall2 outcome_only (MessagesDb.rows (messages w)) old.
Proof.
  destruct (steps_keep acts {| world := w; waiting := [] |}) as [_ Hg];
    [constructor|].
  exact Hg.
Qed.

Lemma own_record_last (message_id : Z) (w1 w : World)
  (l : list MessagesDb.Row) (r : MessagesDb.Row) :
  own_record message_id w1 w ->
  MessagesDb.rows (messages w1) = (l ++ [r])%list ->
  Forall (fun r => MessagesDb.id r <> message_id) l ->
  exists st c, MessagesDb.rows (messages w) = (l ++ [settled r st c])%list.
Proof.
  intros (_ & _ & H) Hrows Hl. rewrite Hrows in H.
  apply Forall2_app_inv_l in H as (a & b & Ha & Hb & ->).
  inversion Hb as [|? r' ? b' [(st & c & ->) _] Hnil]; subst.
  inversion Hnil; subst.
  exists st, c. f_equal.
  clear -Ha Hl. induction Ha as [|x y l a [_ Hxy] _ IH]; [reflexivity|].
  inversion Hl; subst. rewrite Hxy by assumption. f_equal. now apply IH.
Qed.

(** X27. A request served on its own, whatever its text, whatever the remote
    service, the file system and the chat platform do: the settings are as
    before, every record the ledger had is exactly as before, and the
    ledger has at most one record more, which is the one [create_message]
    wrote but for status and cost. *)
Theorem request_keeps_to_its_record (env : Env) (message : Message) (w : World)
  (tg : TgCall -> option string) :
  let after := snd (fst (run tg (handle_message env message w))) in
  ledger_wf (messages w) ->
  settings after = settings w
  /\ (MessagesDb.rows (messages after) = MessagesDb.rows (messages w)
      \/ exists st c,
           MessagesDb.rows (messages after)
           = (MessagesDb.rows (messages w)
              ++ [settled (pending_row message w) st c])%list).
Proof.
  intros after (_ & Hall & _). subst after.
  set (P := fun after : World =>
         settings after = settings w
         /\ (MessagesDb.rows (messages after) = MessagesDb.rows (messages w)
             \/ exists st c,
                  MessagesDb.rows (messages after)
                  = (MessagesDb.rows (messages w)
                     ++ [settled (pending_row message w) st c])%list)).
  change (P (snd (fst (run tg (handle_message env message w))))).
  assert (Hawait : forall t, P (snd (fst (run tg (await (Answer t) w))))).
  { intros t. rewrite run_await. cbn [fst snd]. now split; [|left]. }
  unfold handle_message.
  destruct (negb (Str.truthy (default "" (text message)))); [apply Hawait|].
  destruct (negb (Str.truthy (Str.strip (default "" (text message)))));
    [apply Hawait|].
  unfold bind at 1 2, get_successful_videos_count, get_total_cost.
  cbn [bind_step].
  destruct (_ <=? _)%Z; [apply Hawait|].
  unfold bind at 1 2 3, get_user_settings, create_message,
    MessagesDb.create_message, await.
  cbn [bind_step run].
  change {| settings := settings w;
            messages := {| MessagesDb.rows := _; MessagesDb.last_id := _ |};
            files := files w; net := net w |}
    with (with_record message w).
  destruct (tg (Answer GenerationRequested)) as [msg|]; cbn [bind_step run fst snd].
  { split; [reflexivity|]. right.
    exists "pending", 0%Q. reflexivity. }
  subst P. cbn beta.
  pose proof (runs_run not_the_timeout_notice
                (own_record (MessagesDb.last_id (messages w) + 1))
                (fun _ => True) tg (with_record message w) _
                (own_record_trans _)
                (guarded_generation_keeps env
                   (MessagesDb.last_id (messages w) + 1)
                   (Str.strip (default "" (text message)))
                   (SettingsDb.get_user_settings (settings w) (from_id message))
                   _ _ (own_record_refl _ (with_record message w))))
    as (_ & Hown & _).
  unfold on_exception in Hown.
  destruct (run tg _) as [[cs w'] r]. cbn [fst snd] in *.
  split; [apply Hown|]. right.
  apply (own_record_last _ _ _ _ _ Hown eq_refl).
  rewrite Forall_forall in Hall. apply Forall_forall. intros r0 Hin Heq.
  assert (Hid : MessagesDb.id r0 ∈ ids (messages w)).
  { unfold ids. apply list_elem_of_fmap. now exists r0. }
  specialize (Hall _ Hid). lia.
Qed.

End PipelineFurther.

(** A text of a no-break space, a next-line control, a blank and a tab. *)
Lemma blank_prompt_is_turned_away_witness :
  let blank := {| Bot.from_id := 7; Bot.from_username := Some "ann";
                  Bot.from_first_name := "Ann";
                  Bot.text := Some (String "160" (String "133" " 	")) |} in
  snd (fst (Bot.run Scenario.tg_ok
              (Bot.handle_message Scenario.env blank Scenario.one_left)))
  = Scenario.one_left.
Proof.
  intros blank.
  apply (blank_prompt_is_turned_away Scenario.env blank Scenario.one_left
           Scenario.tg_ok).
  repeat constructor.
Defined.

Lemma submit_failure_is_recorded_witness :
  MessagesDb.rows
    (Bot.messages
       (snd (fst (Bot.run Scenario.tg_ok
                    (Bot.handle_message Scenario.env_down Scenario.sunset
                       Scenario.fresh)))))
  = [settled (pending_row Scenario.sunset Scenario.fresh) "failed" 0%Q].
Proof.
  refine (proj1 (proj2 (submit_failure_is_recorded Scenario.env_down
                          Scenario.sunset Scenario.fresh Scenario.tg_ok
                          _ _ _ _ _ _))).
  - split; [reflexivity | reflexivity].
  - repeat split; [constructor | constructor | discriminate].
  - reflexivity.
  - reflexivity.
Defined.

Lemma delivery_is_recorded_witness :
  MessagesDb.rows
    (Bot.messages
       (snd (fst (Bot.run Scenario.tg_ok
                    (Bot.handle_message Scenario.env Scenario.sunset
                       Scenario.fresh)))))
  = [settled (pending_row Scenario.sunset Scenario.fresh) "success"
       (F64.value (F64.lit 1.20))].
Proof.
  refine (proj1 (proj2 (delivery_is_recorded Scenario.env Scenario.sunset
                          Scenario.fresh Scenario.tg_ok
                          _ _ _ _ _ _ (F64.lit 1.20) _ _
                          _ _ _ _ _ _ _ _ _ _ _ _))).
  - split; [reflexivity | reflexivity].
  - repeat split; [constructor | constructor | discriminate].
  - intros c. reflexivity.
  - reflexivity.
  - reflexivity.
  - reflexivity.
  - reflexivity.
  - vm_compute. reflexivity.
  - reflexivity.
  - reflexivity.
  - reflexivity.
  - reflexivity.
Defined.

Lemma request_keeps_to_its_record_witness :
  Bot.settings
    (snd (fst (Bot.run Scenario.tg_delete_fails
                 (Bot.handle_message Scenario.env Scenario.harbour
                    Scenario.one_left))))
  = Bot.settings Scenario.one_left.
Proof.
  refine (proj1 (request_keeps_to_its_record Scenario.env Scenario.harbour
                   Scenario.one_left Scenario.tg_delete_fails _)).
  repeat split.
  - apply (bool_decide_unpack _). vm_compute. exact I.
  - apply (bool_decide_unpack _). vm_compute. exact I.
  - discriminate.
Defined.

(** ** The command handlers *)

Section CommandsFurther.

Import Commands.

Variable split : string -> list string.
Variable int : string -> option Z.

Lemma existsb_string_elem (x : string) (l : list string) :
  existsb (String.eqb x) l = true -> x ∈ l.
Proof.
  intros H. apply existsb_exists in H as (y & Hin & Heq).
  apply String.eqb_eq in Heq. subst y. now apply list_elem_of_In.
Qed.

Lemma existsb_Z_elem (x : Z) (l : list Z) :
  existsb (Z.eqb x) l = true -> x ∈ l.
Proof.
  intros H. apply existsb_exists in H as (y & Hin & Heq).
  apply Z.eqb_eq in Heq. subst y. now apply list_elem_of_In.
Qed.

Lemma defaults_valid (uid : Z) : valid (SettingsDb.get_user_settings ∅ uid).
Proof.
  unfold SettingsDb.get_user_settings. rewrite lookup_empty.
  repeat split; cbn; apply list_elem_of_In; cbn; tauto.
Qed.

Lemma settings_valid_set (db : SettingsDb.Table) (uid : Z)
  (m : option string) (d : option Z) (r : option string) :
  settings_valid db ->
  (forall x, m = Some x -> x ∈ valid_models) ->
  (forall x, d = Some x -> x ∈ valid_durations) ->
  (forall x, r = Some x -> x ∈ valid_resolutions) ->
  settings_valid (fst (SettingsDb.set_user_settings db uid m d r)).
Proof.
  intros Hdb Hm Hd Hr uid'. unfold SettingsDb.set_user_settings. cbn [fst].
  unfold SettingsDb.get_user_settings at 1.
  destruct (decide (uid' = uid)) as [->|Hne].
  - rewrite lookup_insert_eq. destruct (Hdb uid) as (Vm & Vd & Vr).
    destruct m, d, r; cbn; repeat split; auto.
  - rewrite lookup_insert_ne by congruence. apply (Hdb uid').
Qed.

Lemma settings_valid_reset (db : SettingsDb.Table) (uid : Z) :
  settings_valid db ->
  settings_valid (fst (SettingsDb.reset_user_settings db uid)).
Proof.
  intros Hdb uid'. unfold SettingsDb.reset_user_settings. cbn [fst].
  unfold SettingsDb.get_user_settings.
  destruct (decide (uid' = uid)) as [->|Hne].
  - rewrite lookup_delete_eq. apply (defaults_valid uid).
  - rewrite lookup_delete_ne by congruence. apply (Hdb uid').
Qed.

(** Every model the checks let through names the third generation. *)
Lemma valid_model_is_veo_3 (m : string) :
  m ∈ valid_models -> Str.contains "veo-3" m = true.
Proof.
  unfold valid_models. rewrite !elem_of_cons, elem_of_nil.
  intros [->|[->|[->|[->|[->|[->|[]]]]]]]; reflexivity.
Qed.

Lemma handle_keeps_valid (h : Handler) (user_id : Z) (text : string)
  (w : Bot.World) :
  settings_valid (Bot.settings w) ->
  settings_valid (Bot.settings (fst (handle split int h user_id text w)))
  /\ ~ is_warning (snd (handle split int h user_id text w))
  /\ Bot.messages (fst (handle split int h user_id text w)) = Bot.messages w.
Proof.
  intros Hw.
  assert (Hno : forall r, (forall m x, r <> ResolutionWarning m x) -> ~ is_warning r).
  { intros r Hr (m & x & E). exact (Hr m x E). }
  destruct h; cbn [handle fst snd].
  - (split; [exact Hw | split; [now apply Hno | reflexivity]]).
  - (split; [exact Hw | split; [now apply Hno | reflexivity]]).
  - (split; [exact Hw | split; [now apply Hno | reflexivity]]).
  - unfold cmd_setmodel.
    destruct (length (split text) <? 2)%nat; cbn [fst snd Bot.settings Bot.messages];
      [(split; [exact Hw | split; [now apply Hno | reflexivity]])|].
    destruct (existsb _ valid_models) eqn:E; cbn [negb fst snd Bot.settings Bot.messages].
    + split; [|split; [now apply Hno | reflexivity]].
      apply settings_valid_set; [exact Hw | | discriminate | discriminate].
      intros x [= <-]. now apply existsb_string_elem.
    + (split; [exact Hw | split; [now apply Hno | reflexivity]]).
  - unfold cmd_setduration.
    destruct (length (split text) <? 2)%nat; cbn [fst snd Bot.settings Bot.messages];
      [(split; [exact Hw | split; [now apply Hno | reflexivity]])|].
    destruct (int _) as [duration|]; cbn [fst snd Bot.settings Bot.messages];
      [|(split; [exact Hw | split; [now apply Hno | reflexivity]])].
    destruct (existsb _ valid_durations) eqn:E; cbn [negb fst snd Bot.settings Bot.messages].
    + split; [|split; [now apply Hno | reflexivity]].
      apply settings_valid_set; [exact Hw | discriminate | | discriminate].
      intros x [= <-]. now apply existsb_Z_elem.
    + (split; [exact Hw | split; [now apply Hno | reflexivity]]).
  - unfold cmd_setresolution.
    destruct (length (split text) <? 2)%nat; cbn [fst snd Bot.settings Bot.messages];
      [(split; [exact Hw | split; [now apply Hno | reflexivity]])|].
    destruct (existsb _ valid_resolutions) eqn:E; cbn [negb fst snd Bot.settings Bot.messages];
      [|(split; [exact Hw | split; [now apply Hno | reflexivity]])].
    destruct (Hw user_id) as (Vm & _ & _).
    rewrite (valid_model_is_veo_3 _ Vm), andb_false_r.
    cbn [negb fst snd Bot.settings Bot.messages].
    split; [|split; [now apply Hno | reflexivity]].
    apply settings_valid_set; [exact Hw | discriminate | discriminate |].
    intros x [= <-]. now apply existsb_string_elem.
  - unfold cmd_reset. cbn [fst snd Bot.settings Bot.messages].
    split; [|split; [now apply Hno | reflexivity]]. now apply settings_valid_reset.
  - (split; [exact Hw | split; [now apply Hno | reflexivity]]).
Qed.

Lemma serve_keeps_valid (events : list Event) (l : Bot.Loop) :
  settings_valid (Bot.settings (Bot.world l)) ->
  waits_within not_the_timeout_notice ledger_grows l ->
  settings_valid (Bot.settings (Bot.world (fst (serve split int l events))))
  /\ Forall (fun r => ~ is_warning r) (snd (serve split int l events)).
Proof.
  revert l. induction events as [|[h uid text|a] events IH]; intros l Hv Hw;
    cbn [serve].
  - split; [exact Hv | constructor].
  - destruct (handle_keeps_valid h uid text (Bot.world l) Hv) as (Hv' & Hr & _).
    destruct (handle split int h uid text (Bot.world l)) as [w r].
    cbn [fst snd] in Hv', Hr.
    specialize (IH {| Bot.world := w; Bot.waiting := Bot.waiting l |} Hv' Hw).
    destruct (serve split int _ events) as [l' rs]. cbn [fst snd] in *.
    destruct IH as [IH1 IH2]. split; [exact IH1 | now constructor].
  - destruct (step_keeps l a Hw) as [Hw' [Hs _]].
    apply IH; [|exact Hw']. now rewrite Hs.
Qed.

(** X28. The settings of every user stay within what the command handlers
    accept: starting from settings that are (an empty table is), whatever
    commands are sent by whomever with whatever text, and whatever prompts
    are served in between, every user's model is one of the six supported
    ones, the duration is 4, 6 or 8, and the resolution is 720p or 1080p. *)
Theorem settings_stay_valid (events : list Event) (w : Bot.World) :
  settings_valid (Bot.settings w) ->
  settings_valid
    (Bot.settings
       (Bot.world
          (fst (serve split int {| Bot.world := w; Bot.waiting := [] |} events)))).
Proof.
  intros Hv.
  now apply (serve_keeps_valid events {| Bot.world := w; Bot.waiting := [] |});
    [|constructor].
Qed.

(** X29. The warning of [cmd_setresolution] (lines 231-237) is never sent:
    starting from settings that passed the checks, whatever commands and
    prompts are served, no command is answered with it. The model of a
    user always contains veo-3, so the condition of line 231 is false. *)
Theorem resolution_warning_is_never_sent (events : list Event) (w : Bot.World) :
  settings_valid (Bot.settings w) ->
  Forall (fun r => ~ is_warning r)
    (snd (serve split int {| Bot.world := w; Bot.waiting := [] |} events)).
Proof.
  intros Hv.
  now apply (serve_keeps_valid events {| Bot.world := w; Bot.waiting := [] |});
    [|constructor].
Qed.

End CommandsFurther.

Lemma settings_stay_valid_witness :
  settings_valid
    (Bot.settings
       (Bot.world
          (fst (Commands.serve (fun _ => ["/setresolution"; "1080P "])
                  (fun _ => None)
                  {| Bot.world := Scenario.fresh; Bot.waiting := [] |}
                  [Commands.Command Commands.SetResolution 7 "/setresolution 1080P ";
                   Commands.Request (Bot.Arrive Scenario.env Scenario.sunset);
                   Commands.Command Commands.Reset 8 "/reset"])))).
Proof.
  apply settings_stay_valid. intros uid. apply defaults_valid.
Defined.

Lemma resolution_warning_is_never_sent_witness :
  Forall (fun r => ~ is_warning r)
    (snd (Commands.serve (fun _ => ["/setresolution"; "1080p"])
            (fun _ => None)
            {| Bot.world := Scenario.fresh; Bot.waiting := [] |}
            [Commands.Command Commands.SetResolution 7 "/setresolution 1080p"])).
Proof.
  apply resolution_warning_is_never_sent. intros uid. apply defaults_valid.
Defined.
